(** * Gap assessment engine of the security policy builder

    A shallow embedding of [src/commands/psp-assess.ts]: the regular
    expressions that recognise gap-flag questions, the input gap
    extractor [calculateInputGaps], the answer normalisation inside
    [gatherInputs] and the assessment driver [run], followed by the
    properties the specification states about them.

    JavaScript strings are sequences of UTF-16 code units; they are
    modelled as lists of code units ([N]).  Objects are mutable and
    shared, so they live in a heap addressed by locations. *)

From Stdlib Require Import NArith ZArith Lia Ascii String.
From stdpp Require Import base option list strings.

Open Scope N_scope.

(** ** Strings *)

Abbreviation jsstring := (list N).

(** Code units of an ASCII literal of the source text. *)
Fixpoint u16 (s : string) : jsstring :=
  match s with
  | EmptyString => []
  | String c s' => N_of_ascii c :: u16 s'
  end.
Arguments u16 : simpl never.

Definition jsstring_eqb (a b : jsstring) : bool := bool_decide (a = b).

(** [s.startsWith(p)], the test a literal of a pattern performs. *)
Fixpoint starts_with (p s : jsstring) : bool :=
  match p, s with
  | [], _ => true
  | _ :: _, [] => false
  | a :: p', b :: s' => (a =? b) && starts_with p' s'
  end.

(** ** Character classes *)

(** LineTerminator code points: the characters [.] refuses. *)
Definition is_line_terminator (c : N) : bool :=
  (c =? 10) || (c =? 13) || (c =? 8232) || (c =? 8233).

(** [.] of a pattern without the [s] flag. *)
Definition is_dot (c : N) : bool := negb (is_line_terminator c).

(** [[A-Z]] *)
Definition is_upper (c : N) : bool := (65 <=? c) && (c <=? 90).

(** [[a-z]] *)
Definition is_lower (c : N) : bool := (97 <=? c) && (c <=? 122).

(** WhiteSpace and LineTerminator code points, stripped by
    [String.prototype.trim]. *)
Definition is_white (c : N) : bool :=
  (c =? 9) || (c =? 10) || (c =? 11) || (c =? 12) || (c =? 13) ||
  (c =? 32) || (c =? 160) || (c =? 5760) ||
  ((8192 <=? c) && (c <=? 8202)) ||
  (c =? 8232) || (c =? 8233) || (c =? 8239) || (c =? 8287) ||
  (c =? 12288) || (c =? 65279).

(** ** The patterns of the source *)

Definition lit_has : jsstring := u16 "has".
Definition lit_Gap : jsstring := u16 "Gap".

(** The pattern of [calculateInputGaps] (line 175) is the literal [has],
    a captured greedy run of [.] and the literal [Gap].  This is the part
    after [has], tried at the position that follows it.  The star is greedy: it first takes the next character and
    lets the rest of the pattern match; only when that fails does it
    stop here and ask for the literal [Gap].  The result is the text
    captured by the group. *)
Fixpoint dot_star_Gap (s : jsstring) : option jsstring :=
  match s with
  | [] => None
  | c :: s' =>
      match (if is_dot c then dot_star_Gap s' else None) with
      | Some g => Some (c :: g)
      | None => if starts_with lit_Gap s then Some [] else None
      end
  end.

(** [exec] of that pattern on [key], reduced to what the caller reads:
    [None] for a [null] result, otherwise [match[1]].  The pattern is
    not anchored, so the engine tries every start position from the
    left and keeps the first that matches. *)
Fixpoint exec_has_Gap (key : jsstring) : option jsstring :=
  match (if starts_with lit_has key then dot_star_Gap (drop 3 key) else None) with
  | Some g => Some g
  | None =>
      match key with
      | [] => None
      | _ :: key' => exec_has_Gap key'
      end
  end.

(** The pattern of [gatherInputs] (line 225) is the same without the
    capturing group; this is its part after [has]. *)
Fixpoint dot_star_Gap_test (s : jsstring) : bool :=
  match s with
  | [] => false
  | c :: s' =>
      (is_dot c && dot_star_Gap_test s') || starts_with lit_Gap s
  end.

(** [test] of that pattern on [questionName]. *)
Fixpoint test_has_Gap (questionName : jsstring) : bool :=
  (starts_with lit_has questionName && dot_star_Gap_test (drop 3 questionName))
  || match questionName with
     | [] => false
     | _ :: rest => test_has_Gap rest
     end.

(** [name.replace(/([A-Z])([a-z])/g, (match, upper, lower) => ` ${upper}${lower}`)]:
    the scan goes left to right; where an upper-case letter is followed
    by a lower-case one both are replaced by a space and themselves and
    the scan resumes after the pair, otherwise one character is copied. *)
Fixpoint replace_upper_lower (name : jsstring) : jsstring :=
  match name with
  | upper :: ((lower :: rest) as tail) =>
      if is_upper upper && is_lower lower
      then 32 :: upper :: lower :: replace_upper_lower rest
      else upper :: replace_upper_lower tail
  | _ => name
  end.

(** [String.prototype.trim] *)
Fixpoint trimStart (s : jsstring) : jsstring :=
  match s with
  | c :: s' => if is_white c then trimStart s' else s
  | [] => []
  end.

Definition trimEnd (s : jsstring) : jsstring := rev (trimStart (rev s)).

Definition trim (s : jsstring) : jsstring := trimEnd (trimStart s).


(** ** Values and objects *)

(** Modelled from the spec: the declarations of [AssessmentAnswers] and
    [AssessmentInput] ([../types]) are not among the sources.  An answer
    is a boolean, free text or a date; organisation attributes are
    strings and booleans; reading a property that is absent gives
    [undefined]. *)
Inductive value : Type :=
  | VUndefined
  | VBool (b : bool)
  | VStr (s : jsstring)
  | VDate (ms : Z).

(** ToBoolean, as applied by [!], [if] and [?:]. *)
Definition truthy (v : value) : bool :=
  match v with
  | VUndefined => false
  | VBool b => b
  | VStr s => negb (jsstring_eqb s [])
  | VDate _ => true
  end.

(** [!v] *)
Definition js_not (v : value) : value := VBool (negb (truthy v)).

(** An object is the list of its own properties in the order
    [Object.keys] and the spread operator enumerate them: array-index
    names first, ascending, then the other names in creation order. *)
Abbreviation obj := (list (jsstring * value)).

Definition Object_keys (o : obj) : list jsstring := o.*1.

Definition digit_val (c : N) : option N :=
  if (48 <=? c) && (c <=? 57) then Some (c - 48) else None.

Fixpoint digits_val (acc : N) (s : jsstring) : option N :=
  match s with
  | [] => Some acc
  | c :: s' =>
      match digit_val c with
      | Some d => digits_val (10 * acc + d) s'
      | None => None
      end
  end.

(** The number a property name denotes when it is an array index: a
    canonical decimal numeral below 2^32 - 1. *)
Definition array_index (k : jsstring) : option N :=
  match k with
  | [] => None
  | c :: rest =>
      if (c =? 48) && negb (bool_decide (rest = [])) then None
      else match digits_val 0 k with
           | Some n => if n <? 4294967295 then Some n else None
           | None => None
           end
  end.

Fixpoint obj_lookup (k : jsstring) (o : obj) : option value :=
  match o with
  | [] => None
  | (k', v) :: o' => if jsstring_eqb k k' then Some v else obj_lookup k o'
  end.

(** [o[k]] and [o.k] as an expression *)
Definition obj_get (k : jsstring) (o : obj) : value :=
  default VUndefined (obj_lookup k o).

Fixpoint obj_update (k : jsstring) (v : value) (o : obj) : obj :=
  match o with
  | [] => []
  | (k', v') :: o' =>
      if jsstring_eqb k k' then (k', v) :: o' else (k', v') :: obj_update k v o'
  end.

Fixpoint obj_insert_index (n : N) (k : jsstring) (v : value) (o : obj) : obj :=
  match o with
  | [] => [(k, v)]
  | (k', v') :: o' =>
      match array_index k' with
      | Some n' => if n' <? n then (k', v') :: obj_insert_index n k v o'
                   else (k, v) :: o
      | None => (k, v) :: o
      end
  end.

(** [o[k] = v]: an existing property keeps its place, a new one is
    created. *)
Definition obj_set (k : jsstring) (v : value) (o : obj) : obj :=
  match obj_lookup k o with
  | Some _ => obj_update k v o
  | None =>
      match array_index k with
      | Some n => obj_insert_index n k v o
      | None => o ++ [(k, v)]
      end
  end.

(** [{...target, ...source}] and [Object.assign(target, source)]: every
    own property of [source], in enumeration order, is read and set on
    [target]. *)
Definition copy_props (source target : obj) : obj :=
  foldl (fun t k => obj_set k (obj_get k source) t) target (Object_keys source).

(** ** Gaps and the input gap extractor *)

Record Gap : Type := mkGap { ref : jsstring; title : jsstring }.

Definition calculateInputGaps (inputs : obj) : list Gap :=
  foldl
    (fun gaps orgKey =>
       match exec_has_Gap orgKey with
       | Some name =>
           let ref := trim (replace_upper_lower name) in
           gaps ++ [ {| ref := ref; title := u16 "(see above)" |} ]
       | None => gaps
       end)
    [] (Object_keys inputs).

(** ** The heap of shared objects *)

Abbreviation loc := nat.
Abbreviation heap := (list obj).

Definition heap_obj (l : loc) (h : heap) : obj := default [] (h !! l).

(** [l[k]] *)
Definition heap_read (l : loc) (k : jsstring) (h : heap) : value :=
  obj_get k (heap_obj l h).

(** [l[k] = v], in place: every holder of [l] sees the new value. *)
Definition heap_write (l : loc) (k : jsstring) (v : value) (h : heap) : heap :=
  alter (obj_set k v) l h.

(** ** Answer normalisation (lines 223 to 234 of [gatherInputs]) *)

Definition PEN_TEST_QUESTIONS : list jsstring :=
  [ u16 "lastPenTestDate"; u16 "lastPenTestProvider";
    u16 "penTestFrequency"; u16 "nextPenTestDate" ].

(** Invert boolean values for gap questions: the names are taken from
    the object once, filtered by the pattern, and each is rewritten. *)
Definition invert_gap_answers (answers : loc) (h : heap) : heap :=
  foldl
    (fun h gap => heap_write answers gap (js_not (heap_read answers gap h)) h)
    h
    (List.filter test_has_Gap (Object_keys (heap_obj answers h))).

Definition suppress_pen_test (answers : loc) (h : heap) : heap :=
  if truthy (heap_read answers (u16 "hasPenTestGap") h)
  then foldl (fun h item => heap_write answers item (VStr (u16 "*TBD*")) h)
             h PEN_TEST_QUESTIONS
  else h.

Definition normalize_answers (answers : loc) (h : heap) : heap :=
  suppress_pen_test answers (invert_gap_answers answers h).

(** ** Outcomes, events and the run monad *)

Definition EUSAGEERROR : Z := 126.

(** Modelled from the spec: [error.fatal] ([../error]) is not among the
    sources.  Failures are fail-fast, with a descriptive message and a
    non-zero outcome the caller maps to a process exit code; [Fatal]
    records both and ends the run.  [Exited] is [process.exit], and
    [Rejected] a collaborator that throws or rejects. *)
Inductive outcome (A : Type) : Type :=
  | Returned (a : A)
  | Exited (code : Z)
  | Fatal (message : jsstring) (code : Z)
  | Rejected (cause : jsstring).
Arguments Returned {A} a.
Arguments Exited {A} code.
Arguments Fatal {A} message code.
Arguments Rejected {A} cause.

Definition exit_code {A} (o : outcome A) : option Z :=
  match o with
  | Returned _ => None
  | Exited c => Some c
  | Fatal _ c => Some c
  | Rejected _ => None
  end.

Record PolicyBuilderConfig : Type := { organization : loc }.

Record PolicyBuilderPaths : Type :=
  { templates_path : jsstring; output_path : option jsstring; partials_path : jsstring }.

Record ProgramInput : Type :=
  { standard : option jsstring;
    config : option jsstring;
    output : option jsstring;
    templates : option jsstring;
    includeRisks : option jsstring;
    account : option jsstring;
    apiToken : option jsstring }.

(** [!x] for an optional string: [undefined] and the empty string are
    falsy. *)
Definition missing (x : option jsstring) : bool :=
  match x with
  | None => true
  | Some s => jsstring_eqb s []
  end.

(** Calls that leave the process, in the order they are made. *)
Inductive event : Type :=
  | EvHelp
  | EvQueryRisks (accountId apiKey : jsstring) (query : jsstring)
  | EvPrompt (standardName : option jsstring)
  | EvRenderControls (standard : jsstring)
  | EvReport (inputs : obj) (standard : jsstring).

Record world : Type := { objects : heap; trace : list event }.

Definition M (A : Type) : Type := world -> outcome A * world.

Definition ret {A} (a : A) : M A := fun w => (Returned a, w).

Definition bind {A B} (m : M A) (k : A -> M B) : M B :=
  fun w =>
    match m w with
    | (Returned a, w') => k a w'
    | (Exited c, w') => (Exited c, w')
    | (Fatal msg c, w') => (Fatal msg c, w')
    | (Rejected e, w') => (Rejected e, w')
    end.

Notation "'let!' x ':=' m 'in' k" := (bind m (fun x => k))
  (at level 10, x name, m at level 100, k at level 200).

Definition stop {A} (o : outcome A) : M A := fun w => (o, w).

Definition emit (e : event) : M unit :=
  fun w => (Returned tt, {| objects := objects w; trace := trace w ++ [e] |}).

Definition get_heap : M heap := fun w => (Returned (objects w), w).

Definition update_heap (f : heap -> heap) : M unit :=
  fun w => (Returned tt, {| objects := f (objects w); trace := trace w |}).

(** A fresh object. *)
Definition alloc (o : obj) : M loc :=
  fun w => (Returned (length (objects w)),
            {| objects := objects w ++ [o]; trace := trace w |}).

(** The result of a collaborator, as its caller sees it. *)
Definition await {A} (e : event) (r : outcome A) : M A :=
  let! _ := emit e in stop r.

(** Runs the plumbing of the monad, leaving the program's own steps. *)
Ltac run_monad :=
  cbv beta iota zeta delta
    [bind ret stop emit get_heap update_heap alloc await objects trace fst snd
     organization].

(** Closes one outcome of a run in the statement on the order of its
    calls: the context is the one given to the report if there is one,
    the events are those added to the trace. *)
Ltac run_leaf :=
  first [ match goal with |- context [EvReport ?c _] => exists c end
        | exists (@nil (jsstring * value)) ];
  first [ eexists; split;
          [cbn [trace snd]; rewrite <- ?(@app_assoc event); reflexivity|]
        | exists (@nil event); split; [cbn [trace snd]; by rewrite app_nil_r|] ];
  cbn [fst app];
  first [ reflexivity | left; reflexivity | right; by eexists ].

(** [inputGaps.concat(cpGaps)] (line 143) *)
Definition combine_gaps (inputGaps cpGaps : list Gap) : list Gap :=
  inputGaps ++ cpGaps.

(** What the program reads of its environment: two variables and the
    clock behind [new Date()]. *)
Record Env : Type :=
  { PROJECT_DIR : option jsstring;
    J1_TARGET_ENV : option jsstring;
    now : Z }.

Section Assessment.

(** The collaborators of the command, none of which is among the
    sources: the modules [../assessment], [../configure] and [../j1],
    the file system and [String.prototype.toLowerCase]. *)
Variable Entity : Type.
Variable AnnotatedRef : Type.

Variable validateOrgValues : obj -> bool.
Variable safeInquirerPrompt : option jsstring -> outcome obj.
Variable generatePolicyTOC : PolicyBuilderConfig -> heap -> value.
Variable queryForEntityList :
  jsstring -> jsstring -> option jsstring -> jsstring -> outcome (list Entity).
Variable generateRiskList : list Entity -> value.
Variable calculateCPGaps :
  jsstring -> PolicyBuilderConfig -> PolicyBuilderPaths -> heap ->
  outcome (list Gap * list AnnotatedRef).
Variable generateGapSummary :
  list Gap -> PolicyBuilderConfig -> jsstring -> heap -> value.
Variable generateGapList : list Gap -> value.
Variable generateStandardControlsMapping :
  list AnnotatedRef -> PolicyBuilderConfig -> heap -> value.
Variable generateReport : obj -> jsstring -> PolicyBuilderPaths -> outcome unit.
(** [JSON.parse(fs.readFileSync(configFile))]: the text of the
    exception, or the organisation the file describes. *)
Variable loadConfig : jsstring -> jsstring + obj.
(** Lines 56 to 100: the template directory, found on the file system. *)
Variable resolveTemplates : Env -> ProgramInput -> jsstring.
Variable toLowerCase : jsstring -> jsstring.

(** Lines 32 to 52; [throw error.fatal(...)] ends the run either way. *)
Definition getRisksFromRegistry (env : Env) (program : ProgramInput)
  : M (list Entity) :=
  if missing (account program) then
    stop (Fatal (u16 "Missing -a, --account <name> input!") EUSAGEERROR)
  else if missing (apiToken program) then
    stop (Fatal (u16 "Missing -k, --api-token <api_token> input!") EUSAGEERROR)
  else
    let accountId := default [] (account program) in
    let apiKey := default [] (apiToken program) in
    let query := u16 "find Risk with _beginOn > date.now - 1year" in
    await (EvQueryRisks accountId apiKey query)
          (queryForEntityList accountId apiKey (J1_TARGET_ENV env) query).

Definition is_or_is_not (v : value) : value :=
  VStr (if truthy v then u16 "is" else u16 "is not").

(** The organisation is validated, the interview is held, its answers
    (a new object, made by the prompt) are normalised in place, and the
    merged context is built as one more new object. *)
Definition gatherInputs (env : Env) (program : ProgramInput)
    (config : PolicyBuilderConfig) : M loc :=
  let org := organization config in
  let! h := get_heap in
  let! _ :=
    if negb (validateOrgValues (heap_obj org h)) then
      stop (Fatal (u16 "Please update your policy config file and re-run the policy builder before continuing with the assessment.") EUSAGEERROR)
    else ret tt in
  let standardName := standard program in
  let! raw := await (EvPrompt standardName) (safeInquirerPrompt standardName) in
  let! answers := alloc raw in
  let! _ := update_heap (normalize_answers answers) in
  let! h := get_heap in
  let o := copy_props (heap_obj org h) [] in
  let o := copy_props (heap_obj answers h) o in
  let o := obj_set (u16 "date") (VDate (now env)) o in
  let o := obj_set (u16 "policyTOC") (generatePolicyTOC config h) o in
  let o := obj_set (u16 "isHIPAACoveredEntityText")
             (is_or_is_not (heap_read org (u16 "isHIPAACoveredEntity") h)) o in
  let o := obj_set (u16 "isHIPAABusinessAssociateText")
             (is_or_is_not (heap_read org (u16 "isHIPAABusinessAssociate") h)) o in
  alloc o.

(** [program] is what the command line parses to.  Console output is
    left out. *)
Definition run (env : Env) (program : ProgramInput) : M unit :=
  if missing (standard program) || missing (config program) then
    let! _ := emit EvHelp in stop (Exited 2)
  else
    let paths :=
      {| templates_path := resolveTemplates env program;
         output_path := output program;
         partials_path := u16 "partials" |} in
    let configFile := default [] (config program) in
    let! config :=
      match loadConfig configFile with
      | inr org =>
          let! l := alloc org in ret {| organization := l |}
      | inl err =>
          stop (Fatal (u16 "Unable to load configuration from " ++ configFile
                         ++ u16 " : " ++ err) EUSAGEERROR)
      end in
    let! riskList :=
      if negb (missing (includeRisks program)) then
        let! riskEntities := getRisksFromRegistry env program in
        ret (generateRiskList riskEntities)
      else ret (VStr (u16 "Detailed risk items omitted.")) in
    let! inputs := gatherInputs env program config in
    let standard := toLowerCase (default [] (standard program)) in
    let! h := get_heap in
    let inputGaps := calculateInputGaps (heap_obj inputs h) in
    let! cp := await (EvRenderControls standard)
                     (calculateCPGaps standard config paths h) in
    let cpGaps := cp.1 in
    let annotatedRefs := cp.2 in
    let allGaps := combine_gaps inputGaps cpGaps in
    let gapSummary := generateGapSummary allGaps config standard h in
    let gapList := generateGapList allGaps in
    let hipaaControlsMapping :=
      generateStandardControlsMapping annotatedRefs config h in
    let! _ := update_heap (alter (copy_props
                [ (u16 "gapList", gapList);
                  (u16 "gapSummary", gapSummary);
                  (u16 "hipaaControlsMapping", hipaaControlsMapping);
                  (u16 "riskList", riskList) ]) inputs) in
    let! h := get_heap in
    await (EvReport (heap_obj inputs h) standard)
          (generateReport (heap_obj inputs h) standard paths).

End Assessment.

(** ** Definitions used to state the properties *)

(** The rewriting of a topic read position by position: a space goes in
    front of every letter [A] to [Z] whose successor is a letter [a] to
    [z], and every character is kept. *)
Fixpoint space_before_upper_lower (s : jsstring) : jsstring :=
  match s with
  | [] => []
  | c :: s' =>
      (if is_upper c && match s' with l :: _ => is_lower l | [] => false end
       then [32] else [])
      ++ c :: space_before_upper_lower s'
  end.

(** The rewriting as the specification words it: a space at every place
    where a lower-case letter is immediately followed by an upper-case
    letter, in front of the word the upper-case letter starts. *)
Fixpoint spec_space_lower_upper (s : jsstring) : jsstring :=
  match s with
  | l :: ((u :: _) as tail) =>
      if is_lower l && is_upper u
      then l :: 32 :: spec_space_lower_upper tail
      else l :: spec_space_lower_upper tail
  | _ => s
  end.

(** The gap a topic gives rise to, and the gap of a property name. *)
Definition gap_of_topic (name : jsstring) : Gap :=
  {| ref := trim (replace_upper_lower name); title := u16 "(see above)" |}.

Definition gap_of_key (key : jsstring) : option Gap :=
  gap_of_topic <$> exec_has_Gap key.

(** What the two steps of the normalisation do to the object they are
    given. *)
Definition invert_obj (o : obj) : obj :=
  foldl (fun o gap => obj_set gap (js_not (obj_get gap o)) o)
        o (List.filter test_has_Gap (Object_keys o)).

Definition suppress_obj (o : obj) : obj :=
  if truthy (obj_get (u16 "hasPenTestGap") o)
  then foldl (fun o item => obj_set item (VStr (u16 "*TBD*")) o) o PEN_TEST_QUESTIONS
  else o.

(** No white space at either end. *)
Definition clean_edges (s : jsstring) : bool :=
  match head s with Some c => negb (is_white c) | None => true end &&
  match last s with Some c => negb (is_white c) | None => true end.

Definition returned {A} (o : outcome A) : bool :=
  match o with Returned _ => true | _ => false end.

(** The usage error of [getRisksFromRegistry]. *)
Definition missing_credentials {A} (program : ProgramInput) : outcome A :=
  Fatal (if missing (account program)
         then u16 "Missing -a, --account <name> input!"
         else u16 "Missing -k, --api-token <api_token> input!")
        EUSAGEERROR.

(** Events that reach the risk registry or produce a report. *)
Definition is_query_or_report (e : event) : bool :=
  match e with
  | EvQueryRisks _ _ _ => true
  | EvReport _ _ => true
  | _ => false
  end.

(** ** A sample run

    Concrete collaborators and inputs on which the statements about the
    driver are exercised. *)
Module Sample.

Definition env : Env :=
  {| PROJECT_DIR := None; J1_TARGET_ENV := None; now := 1600000000000 |}.

Definition program (includeRisks account apiToken : option jsstring)
  : ProgramInput :=
  {| standard := Some (u16 "HIPAA");
     config := Some (u16 "config.json");
     output := Some (u16 "assessments");
     templates := None;
     includeRisks := includeRisks;
     account := account;
     apiToken := apiToken |}.

Definition org : obj :=
  [ (u16 "companyShortName", VStr (u16 "Acme"));
    (u16 "isHIPAACoveredEntity", VBool true) ].

Definition raw : obj :=
  [ (u16 "hasPenTestGap", VBool false);
    (u16 "lastPenTestDate", VStr (u16 "2020-01-01"));
    (u16 "hasEncryptionGap", VBool true) ].

Definition lower_ascii (s : jsstring) : jsstring :=
  (fun c => if is_upper c then c + 32 else c) <$> s.

Definition run (program : ProgramInput) : M unit :=
  run unit unit
    (fun _ => true)
    (fun _ => Returned raw)
    (fun _ _ => VStr (u16 "- policies"))
    (fun _ _ _ _ => Returned [tt])
    (fun _ => VStr (u16 "1 risk"))
    (fun _ _ _ _ => Returned ([ mkGap (u16 "164.308(a)(1)") (u16 "Risk analysis") ], [tt]))
    (fun gaps _ _ _ => VStr (u16 "gaps found"))
    (fun _ => VStr (u16 "1. gap"))
    (fun _ _ _ => VStr (u16 "| clause | status |"))
    (fun _ _ _ => Returned tt)
    (fun _ => inr org)
    (fun _ _ => u16 "templates")
    lower_ascii
    env program.

Definition start : world := {| objects := []; trace := [] |}.

End Sample.

(** ** Definitions for the further properties *)

(** A string with its spaces (U+0020) taken out. *)
Definition without_spaces (s : jsstring) : jsstring :=
  List.filter (fun c => negb (c =? 32)) s.

(** What the inversion does to one property. *)
Definition invert_entry (kv : jsstring * value) : jsstring * value :=
  if test_has_Gap kv.1 then (kv.1, js_not kv.2) else kv.

Definition is_boolean (v : value) : bool :=
  match v with VBool _ => true | _ => false end.

(** Every gap-flag answer of the object is a boolean. *)
Definition flags_boolean (o : obj) : bool :=
  forallb (fun kv => negb (test_has_Gap kv.1) || is_boolean kv.2) o.

(** [o'] is the failure [o], carried to another result type. *)
Definition failed_like {A B} (o : outcome A) (o' : outcome B) : Prop :=
  match o, o' with
  | Exited c, Exited c' => c = c'
  | Fatal m c, Fatal m' c' => m = m' /\ c = c'
  | Rejected e, Rejected e' => e = e'
  | _, _ => False
  end.

(** A property of the merged context, read off the object literal of
    [gatherInputs] from its last entry to its first. *)
Definition context_field (date policyTOC : value) (org answers : obj)
    (k : jsstring) : option value :=
  if jsstring_eqb k (u16 "isHIPAABusinessAssociateText") then
    Some (is_or_is_not (obj_get (u16 "isHIPAABusinessAssociate") org))
  else if jsstring_eqb k (u16 "isHIPAACoveredEntityText") then
    Some (is_or_is_not (obj_get (u16 "isHIPAACoveredEntity") org))
  else if jsstring_eqb k (u16 "policyTOC") then Some policyTOC
  else if jsstring_eqb k (u16 "date") then Some date
  else match obj_lookup k answers with
       | Some v => Some v
       | None => obj_lookup k org
       end.

(** A property of the context given to the report, read off the
    [Object.assign] of [run]. *)
Definition report_field (gapList gapSummary hipaaControlsMapping riskList : value)
    (merged : obj) (k : jsstring) : option value :=
  if jsstring_eqb k (u16 "riskList") then Some riskList
  else if jsstring_eqb k (u16 "hipaaControlsMapping") then Some hipaaControlsMapping
  else if jsstring_eqb k (u16 "gapSummary") then Some gapSummary
  else if jsstring_eqb k (u16 "gapList") then Some gapList
  else obj_lookup k merged.

(** The query a run sends to the registry when risks are requested. *)
Definition risk_query (program : ProgramInput) : list event :=
  if missing (includeRisks program) then []
  else [ EvQueryRisks (default [] (account program)) (default [] (apiToken program))
           (u16 "find Risk with _beginOn > date.now - 1year") ].

(** The risk list is settled as [riskList]: it was not requested, or
    the registry answered. *)
Definition risk_stage_gives {Entity : Type}
    (queryForEntityList :
       jsstring -> jsstring -> option jsstring -> jsstring -> outcome (list Entity))
    (generateRiskList : list Entity -> value)
    (env : Env) (program : ProgramInput) (riskList : value) : Prop :=
  (missing (includeRisks program) = true /\
   riskList = VStr (u16 "Detailed risk items omitted."))
  \/
  (missing (includeRisks program) = false /\
   missing (account program) = false /\
   missing (apiToken program) = false /\
   exists riskEntities,
     queryForEntityList (default [] (account program)) (default [] (apiToken program))
       (J1_TARGET_ENV env) (u16 "find Risk with _beginOn > date.now - 1year")
     = Returned riskEntities /\
     riskList = generateRiskList riskEntities).

(** Runs in which the collaborators answer as told. *)
Module Scenario.

Definition gather (valid : bool) (answers : outcome obj)
  : Env -> ProgramInput -> PolicyBuilderConfig -> M loc :=
  gatherInputs (fun _ => valid) (fun _ => answers)
    (fun _ _ => VStr (u16 "- policies")).

Definition run (valid : bool) (answers : outcome obj)
    (risks : outcome (list unit)) (controls : outcome (list Gap * list unit))
    (report : outcome unit) (cfg : jsstring + obj)
  : Env -> ProgramInput -> M unit :=
  run unit unit
    (fun _ => valid)
    (fun _ => answers)
    (fun _ _ => VStr (u16 "- policies"))
    (fun _ _ _ _ => risks)
    (fun riskEntities => VStr (u16 "risks listed"))
    (fun _ _ _ _ => controls)
    (fun gaps _ _ _ => VStr (u16 "gaps found"))
    (fun _ => VStr (u16 "1. gap"))
    (fun _ _ _ => VStr (u16 "| clause | status |"))
    (fun _ _ _ => report)
    (fun _ => cfg)
    (fun _ _ => u16 "templates")
    Sample.lower_ascii.

Definition controls : outcome (list Gap * list unit) :=
  Returned ([ mkGap (u16 "164.308(a)(1)") (u16 "Risk analysis") ], [tt]).

Definition start : world := {| objects := [Sample.org]; trace := [] |}.

End Scenario.

(** ** Patterns *)

Lemma starts_with_app p s : starts_with p (p ++ s) = true.
Proof.
  induction p as [|a p IH]; [done|].
  simpl. by rewrite N.eqb_refl, IH.
Qed.

Lemma starts_with_inv p s :
  starts_with p s = true -> s = p ++ drop (length p) s.
Proof.
  revert s. induction p as [|a p IH]; intros s H; [done|].
  destruct s as [|b s]; [done|]. simpl in H.
  apply andb_true_iff in H as [Hab Hp].
  apply N.eqb_eq in Hab. subst b. simpl. f_equal. by apply IH.
Qed.

Lemma bool_decide_is_Some {A} (o : option A) :
  bool_decide (is_Some o) = match o with Some _ => true | None => false end.
Proof.
  destruct o.
  - apply bool_decide_eq_true_2. eauto.
  - apply bool_decide_eq_false_2. by intros [? ?].
Qed.

Lemma dot_star_Gap_test_spec s :
  dot_star_Gap_test s = bool_decide (is_Some (dot_star_Gap s)).
Proof.
  induction s as [|c s IH]; [done|].
  cbn [dot_star_Gap_test dot_star_Gap]. rewrite IH, !bool_decide_is_Some.
  destruct (is_dot c); cbn [andb orb].
  - destruct (dot_star_Gap s); cbn [orb]; [done|].
    by destruct (starts_with lit_Gap (c :: s)).
  - by destruct (starts_with lit_Gap (c :: s)).
Qed.

(** Both patterns recognise the same names. *)
Lemma test_has_Gap_exec key :
  test_has_Gap key = bool_decide (is_Some (exec_has_Gap key)).
Proof.
  induction key as [|c key IH]; [done|].
  cbn [test_has_Gap exec_has_Gap].
  rewrite IH, dot_star_Gap_test_spec, !bool_decide_is_Some.
  destruct (starts_with lit_has (c :: key)); cbn [andb orb]; [|done].
  by destruct (dot_star_Gap (drop 3 (c :: key))).
Qed.

(** A run of characters other than line terminators, followed by [Gap],
    is taken by the star. *)
Lemma dot_star_Gap_complete m b :
  forallb is_dot m = true -> is_Some (dot_star_Gap (m ++ lit_Gap ++ b)).
Proof.
  induction m as [|c m IH]; intros H.
  - change ([] ++ lit_Gap ++ b) with (71 :: (97 :: 112 :: b)).
    cbn [dot_star_Gap]. case_match; [eauto|].
    change (starts_with lit_Gap (71 :: 97 :: 112 :: b)) with
      (starts_with lit_Gap (lit_Gap ++ b)).
    rewrite starts_with_app. eauto.
  - simpl in H. apply andb_true_iff in H as [Hc Hm].
    destruct (IH Hm) as [g Hg].
    change ((c :: m) ++ lit_Gap ++ b) with (c :: (m ++ lit_Gap ++ b)).
    cbn [dot_star_Gap]. rewrite Hc, Hg. eauto.
Qed.

Lemma dot_star_Gap_sound s g :
  dot_star_Gap s = Some g ->
  forallb is_dot g = true /\ exists b, s = g ++ lit_Gap ++ b.
Proof.
  revert g. induction s as [|c s IH]; intros g H; [done|].
  cbn [dot_star_Gap] in H.
  destruct (if is_dot c then dot_star_Gap s else None) as [g'|] eqn:E.
  - injection H as <-. destruct (is_dot c) eqn:Hc; [|done].
    destruct (IH _ E) as [Hg [b ->]]. split.
    + simpl. by rewrite Hc, Hg.
    + by exists b.
  - destruct (starts_with lit_Gap (c :: s)) eqn:Hs; [|done].
    injection H as <-. split; [done|].
    exists (drop (length lit_Gap) (c :: s)). by apply starts_with_inv.
Qed.

(** When the whole tail is [topic] followed by [Gap], the greedy star
    captures exactly [topic]. *)
Lemma dot_star_Gap_exact topic :
  forallb is_dot topic = true ->
  dot_star_Gap (topic ++ lit_Gap) = Some topic.
Proof.
  induction topic as [|c topic IH]; intros H; [done|].
  simpl in H. apply andb_true_iff in H as [Hc Ht].
  change ((c :: topic) ++ lit_Gap) with (c :: (topic ++ lit_Gap)).
  cbn [dot_star_Gap]. by rewrite Hc, (IH Ht).
Qed.

Lemma exec_has_Gap_cons c key :
  exec_has_Gap (c :: key) =
  match (if starts_with lit_has (c :: key)
         then dot_star_Gap (drop 3 (c :: key)) else None) with
  | Some g => Some g
  | None => exec_has_Gap key
  end.
Proof. reflexivity. Qed.

(** A match at the first position wins. *)
Lemma exec_has_Gap_here rest g :
  dot_star_Gap rest = Some g -> exec_has_Gap (lit_has ++ rest) = Some g.
Proof.
  intros H.
  change (lit_has ++ rest) with (104 :: 97 :: 115 :: rest).
  rewrite exec_has_Gap_cons.
  change (starts_with lit_has (104 :: 97 :: 115 :: rest)) with true.
  change (drop 3 (104 :: 97 :: 115 :: rest)) with rest.
  by rewrite H.
Qed.

Lemma exec_has_Gap_exact topic :
  forallb is_dot topic = true ->
  exec_has_Gap (lit_has ++ topic ++ lit_Gap) = Some topic.
Proof.
  intros H. apply exec_has_Gap_here. by apply dot_star_Gap_exact.
Qed.

Lemma exec_has_Gap_complete a m b :
  forallb is_dot m = true ->
  is_Some (exec_has_Gap (a ++ lit_has ++ m ++ lit_Gap ++ b)).
Proof.
  intros H. induction a as [|c a IH].
  - destruct (dot_star_Gap_complete m b H) as [g Hg].
    exists g. by apply exec_has_Gap_here.
  - change ((c :: a) ++ lit_has ++ m ++ lit_Gap ++ b)
      with (c :: (a ++ lit_has ++ m ++ lit_Gap ++ b)).
    rewrite exec_has_Gap_cons. case_match; [eauto|]. exact IH.
Qed.

Lemma exec_has_Gap_sound key g :
  exec_has_Gap key = Some g ->
  forallb is_dot g = true /\
  exists a b, key = a ++ lit_has ++ g ++ lit_Gap ++ b.
Proof.
  induction key as [|c key IH]; intros H.
  - done.
  - rewrite exec_has_Gap_cons in H.
    destruct (if starts_with lit_has (c :: key)
              then dot_star_Gap (drop 3 (c :: key)) else None) as [g'|] eqn:E.
    + injection H as <-.
      destruct (starts_with lit_has (c :: key)) eqn:Hs; [|done].
      apply starts_with_inv in Hs.
      destruct (dot_star_Gap_sound _ _ E) as [Hg [b Hb]].
      split; [done|]. exists [], b.
      rewrite Hs. simpl length. by rewrite Hb.
    + destruct (IH H) as [Hg (a & b & ->)].
      split; [done|]. by exists (c :: a), b.
Qed.

(** ** The input gap extractor *)

(** The loop pushes one gap per name the pattern accepts, in the order
    of the names, and looks at nothing else. *)
Lemma push_gaps_omap (keys : list jsstring) (gaps : list Gap) :
  foldl
    (fun gaps orgKey =>
       match exec_has_Gap orgKey with
       | Some name =>
           gaps ++ [ {| ref := trim (replace_upper_lower name);
                        title := u16 "(see above)" |} ]
       | None => gaps
       end) gaps keys
  = gaps ++ omap gap_of_key keys.
Proof.
  revert gaps. induction keys as [|k ks IH]; intros gaps.
  - simpl. by rewrite app_nil_r.
  - change (omap gap_of_key (k :: ks))
      with (match gap_of_key k with
            | Some g => g :: omap gap_of_key ks
            | None => omap gap_of_key ks
            end).
    cbn [foldl]. rewrite IH. unfold gap_of_key at 2.
    destruct (exec_has_Gap k) as [name|]; [|done].
    by rewrite <- app_assoc.
Qed.

Lemma calculateInputGaps_omap inputs :
  calculateInputGaps inputs = omap gap_of_key (Object_keys inputs).
Proof. unfold calculateInputGaps. by rewrite push_gaps_omap. Qed.

Lemma calculateInputGaps_app (o1 o2 : obj) :
  calculateInputGaps (o1 ++ o2) = calculateInputGaps o1 ++ calculateInputGaps o2.
Proof.
  rewrite !calculateInputGaps_omap. unfold Object_keys.
  by rewrite fmap_app, omap_app.
Qed.

(** ** Rewriting and trimming of a topic *)

Lemma upper_not_lower c : is_lower c = true -> is_upper c = false.
Proof.
  unfold is_lower, is_upper. intros H.
  apply andb_true_iff in H as [H1 H2]. apply N.leb_le in H1.
  apply andb_false_iff. right. apply N.leb_gt. lia.
Qed.

Lemma upper_not_white c : is_upper c = true -> is_white c = false.
Proof.
  unfold is_upper, is_white. intros H.
  apply andb_true_iff in H as [H1 H2]. apply N.leb_le in H1, H2.
  repeat (apply orb_false_iff; split);
    try (apply N.eqb_neq; lia).
  apply andb_false_iff. left. apply N.leb_gt. lia.
Qed.

(** The scan that jumps over each rewritten pair and the reading by
    positions agree. *)
Lemma replace_upper_lower_positions s :
  replace_upper_lower s = space_before_upper_lower s.
Proof.
  enough (replace_upper_lower s = space_before_upper_lower s /\
          forall c, replace_upper_lower (c :: s) = space_before_upper_lower (c :: s))
    as [H _] by exact H.
  induction s as [|l s [IH1 IH2]].
  - split; [done|]. intros c. simpl. by rewrite andb_false_r.
  - split; [apply IH2|]. intros u.
    cbn [replace_upper_lower space_before_upper_lower].
    destruct (is_upper u && is_lower l) eqn:E.
    + apply andb_true_iff in E as [_ Hl].
      rewrite (upper_not_lower _ Hl). cbn [andb app]. by rewrite IH1.
    + cbn [app]. f_equal. apply IH2.
Qed.

Lemma forallb_white_spaced s :
  forallb is_white (space_before_upper_lower s) = forallb is_white s.
Proof.
  induction s as [|c s IH]; [done|].
  cbn [space_before_upper_lower]. rewrite forallb_app.
  cbn [forallb]. rewrite IH.
  by destruct (is_upper c && _).
Qed.

Lemma trimStart_suffix s : exists w, s = w ++ trimStart s.
Proof.
  induction s as [|c s [w IH]]; [by exists []|].
  simpl. destruct (is_white c).
  - exists (c :: w). simpl. by rewrite <- IH.
  - by exists [].
Qed.

Lemma trimStart_head s c : head (trimStart s) = Some c -> is_white c = false.
Proof.
  induction s as [|a s IH]; [done|].
  simpl. destruct (is_white a) eqn:E; [exact IH|].
  simpl. by intros [= <-].
Qed.

Lemma trimStart_nil s : trimStart s = [] <-> forallb is_white s = true.
Proof.
  induction s as [|a s IH]; [done|].
  simpl. destruct (is_white a); [exact IH|]. by split.
Qed.

Lemma trimEnd_prefix s : exists w, s = trimEnd s ++ w.
Proof.
  unfold trimEnd. destruct (trimStart_suffix (rev s)) as [w Hw].
  exists (rev w). rewrite <- rev_app_distr, <- Hw. by rewrite rev_involutive.
Qed.

Lemma head_rev {A} (l : list A) : head (rev l) = last l.
Proof.
  induction l as [|x l IH] using rev_ind; [done|].
  by rewrite rev_app_distr, last_snoc.
Qed.

Lemma last_rev {A} (l : list A) : last (rev l) = head l.
Proof. by rewrite <- head_rev, rev_involutive. Qed.

Lemma forallb_rev {A} (f : A -> bool) (l : list A) :
  forallb f (rev l) = forallb f l.
Proof.
  induction l as [|x l IH]; [done|].
  simpl. rewrite forallb_app, IH. simpl.
  by rewrite andb_true_r, andb_comm.
Qed.

Lemma trim_clean_edges s : clean_edges (trim s) = true.
Proof.
  unfold clean_edges, trim. apply andb_true_iff. split.
  - destruct (trimEnd_prefix (trimStart s)) as [w Hw].
    destruct (trimEnd (trimStart s)) as [|c t] eqn:E; [done|].
    simpl. rewrite (trimStart_head s c); [done|]. by rewrite Hw.
  - unfold trimEnd. rewrite last_rev.
    destruct (head (trimStart (rev (trimStart s)))) as [c|] eqn:E; [|done].
    by rewrite (trimStart_head _ _ E).
Qed.

Lemma trim_nil s : trim s = [] <-> forallb is_white s = true.
Proof.
  unfold trim, trimEnd. split.
  - intros H. apply (f_equal (@rev N)) in H. rewrite rev_involutive in H.
    simpl in H. apply trimStart_nil in H. rewrite forallb_rev in H.
    destruct (trimStart s) as [|c t] eqn:E; [by apply trimStart_nil|].
    simpl in H. apply andb_true_iff in H as [Hc _].
    by rewrite (trimStart_head s c) in Hc by (by rewrite E).
  - intros H. apply trimStart_nil in H. by rewrite H.
Qed.

Lemma gap_of_topic_ref_nil name :
  ref (gap_of_topic name) = [] <-> forallb is_white name = true.
Proof.
  simpl. rewrite trim_nil, replace_upper_lower_positions.
  by rewrite forallb_white_spaced.
Qed.

Lemma calculateInputGaps_single (key topic : jsstring) (v : value) :
  exec_has_Gap key = Some topic ->
  calculateInputGaps [ (key, v) ]
  = [ {| ref := trim (space_before_upper_lower topic); title := u16 "(see above)" |} ].
Proof.
  intros H. rewrite calculateInputGaps_omap. cbn [Object_keys fmap list_fmap fst].
  change (omap gap_of_key [key])
    with (match gap_of_key key with Some g => [g] | None => [] end).
  unfold gap_of_key. rewrite H. cbn [fmap option_fmap option_map].
  unfold gap_of_topic. by rewrite replace_upper_lower_positions.
Qed.

(** For a name of the exact form, the captured topic is the text between
    the two literals, provided it holds no line terminator. *)
Lemma input_gap_of_exact_name (topic : jsstring) (v : value) :
  forallb is_dot topic = true ->
  calculateInputGaps [ (u16 "has" ++ topic ++ u16 "Gap", v) ]
  = [ {| ref := trim (space_before_upper_lower topic); title := u16 "(see above)" |} ].
Proof.
  intros H. apply calculateInputGaps_single. by apply exec_has_Gap_exact.
Qed.

(** ** Claims about the input gap extractor *)

(** C1.  The extractor never reads the answer stored under a name: on
    the mapping with [hasPenTestGap] true and [hasEncryptionGap] false
    it reports both topics, and on any mapping it reports what it would
    report if every answer were [true]. *)
Theorem calculateInputGaps_ignores_answers (inputs : obj) :
  calculateInputGaps
    [ (u16 "hasPenTestGap", VBool true); (u16 "hasEncryptionGap", VBool false) ]
  = [ {| ref := u16 "Pen Test"; title := u16 "(see above)" |};
      {| ref := u16 "Encryption"; title := u16 "(see above)" |} ]
  /\ calculateInputGaps inputs
     = calculateInputGaps ((fun kv => (kv.1, VBool true)) <$> inputs).
Proof.
  split; [by vm_compute|].
  rewrite !calculateInputGaps_omap. f_equal.
  unfold Object_keys. rewrite <- list_fmap_compose.
  by apply list_fmap_ext.
Qed.

(** C3, as stated, fails: the name [hasGap] is accepted with an empty
    topic and gives a gap whose [ref] is the empty string. *)
Lemma ref_never_empty_fails :
  ~ (forall g, In g (calculateInputGaps [ (u16 "hasGap", VBool true) ]) ->
               ref g <> []).
Proof.
  intros H.
  apply (H {| ref := []; title := u16 "(see above)" |}); [|done].
  vm_compute. by left.
Qed.

(** C3, amended.  Every gap of the extractor comes from a name the
    pattern accepts; its [ref] is the captured topic with a space put
    before each letter [A] to [Z] that is immediately followed by a
    letter [a] to [z], trimmed; it has no white space at either end,
    and it is empty exactly when the topic holds nothing but white
    space. *)
Theorem input_gap_ref_trimmed (inputs : obj) (g : Gap) :
  In g (calculateInputGaps inputs) ->
  clean_edges (ref g) = true /\
  title g = u16 "(see above)" /\
  exists key name,
    In key (Object_keys inputs) /\
    exec_has_Gap key = Some name /\
    ref g = trim (space_before_upper_lower name) /\
    (ref g = [] <-> forallb is_white name = true).
Proof.
  rewrite calculateInputGaps_omap, <- list_elem_of_In, list_elem_of_omap.
  intros (key & Hkey & Hg). unfold gap_of_key in Hg.
  destruct (exec_has_Gap key) as [name|] eqn:E; [|done].
  injection Hg as <-. split; [apply trim_clean_edges|]. split; [done|].
  exists key, name. rewrite <- list_elem_of_In. split; [done|]. split; [done|].
  split.
  - simpl. by rewrite replace_upper_lower_positions.
  - apply gap_of_topic_ref_nil.
Qed.

Lemma input_gap_ref_trimmed_witness :
  clean_edges (u16 "Pen Test") = true /\
  title {| ref := u16 "Pen Test"; title := u16 "(see above)" |} = u16 "(see above)" /\
  exists key name,
    In key (Object_keys [ (u16 "hasPenTestGap", VBool true) ]) /\
    exec_has_Gap key = Some name /\
    u16 "Pen Test" = trim (space_before_upper_lower name) /\
    (u16 "Pen Test" = [] <-> forallb is_white name = true).
Proof.
  apply (input_gap_ref_trimmed
           [ (u16 "hasPenTestGap", VBool true) ]
           {| ref := u16 "Pen Test"; title := u16 "(see above)" |}).
  vm_compute. left. reflexivity.
Defined.

(** C4, as stated, fails: in [HIPAATraining] no lower-case letter is
    followed by an upper-case one, so the wording of the specification
    leaves the topic alone, while the program separates [Training]. *)
Lemma space_after_lower_fails :
  calculateInputGaps [ (u16 "hasHIPAATrainingGap", VBool true) ]
  <> [ {| ref := trim (spec_space_lower_upper (u16 "HIPAATraining"));
          title := u16 "(see above)" |} ].
Proof. vm_compute. discriminate. Qed.

(** C4, amended.  For a name the pattern accepts, with [topic] the text
    between [has] and [Gap] that it captures, the one gap emitted has as
    [ref] the topic with a single space in front of every letter [A] to
    [Z] that is immediately followed by a letter [a] to [z] (no other
    character counts as upper or lower case), trimmed; [PenTest] gives
    [Pen Test]. *)
Theorem input_gap_ref_spacing (key topic : jsstring) (v : value) :
  exec_has_Gap key = Some topic ->
  calculateInputGaps [ (key, v) ]
  = [ {| ref := trim (space_before_upper_lower topic); title := u16 "(see above)" |} ]
  /\ (exists a b, key = a ++ u16 "has" ++ topic ++ u16 "Gap" ++ b)
  /\ calculateInputGaps [ (u16 "hasPenTestGap", v) ]
     = [ {| ref := u16 "Pen Test"; title := u16 "(see above)" |} ].
Proof.
  intros H. split; [|split].
  - by apply calculateInputGaps_single.
  - apply exec_has_Gap_sound in H as [_ H]. exact H.
  - by vm_compute.
Qed.

(** The classes of the pattern are the ranges [A-Z] and [a-z] of code
    units and nothing more: in the topic made of the code units 201
    (capital E with acute), [cole], 192 (capital A with grave) and [b],
    both capitals are followed by a letter [a] to [z] and neither gets a
    space. *)
Lemma accented_capitals_not_spaced (v : value) :
  calculateInputGaps
    [ (u16 "has" ++ [201; 99; 111; 108; 101; 192; 98]%N ++ u16 "Gap", v) ]
  = [ {| ref := [201; 99; 111; 108; 101; 192; 98]%N;
         title := u16 "(see above)" |} ].
Proof. by vm_compute. Qed.

Lemma input_gap_ref_spacing_witness :
  calculateInputGaps [ (u16 "hasHIPAATrainingGap", VBool false) ]
  = [ {| ref := trim (space_before_upper_lower (u16 "HIPAATraining"));
         title := u16 "(see above)" |} ]
  /\ (exists a b, u16 "hasHIPAATrainingGap"
                  = a ++ u16 "has" ++ u16 "HIPAATraining" ++ u16 "Gap" ++ b)
  /\ calculateInputGaps [ (u16 "hasPenTestGap", VBool false) ]
     = [ {| ref := u16 "Pen Test"; title := u16 "(see above)" |} ].
Proof.
  apply (input_gap_ref_spacing (u16 "hasHIPAATrainingGap") (u16 "HIPAATraining")
           (VBool false)).
  vm_compute. reflexivity.
Defined.

(** C10, as stated, fails: [has] followed later by [Gap] is not enough
    when a line terminator stands between them, since [.] does not
    match one. *)
Lemma has_newline_Gap_not_recognised :
  test_has_Gap (u16 "has" ++ [10] ++ u16 "Gap") = false /\
  exec_has_Gap (u16 "has" ++ [10] ++ u16 "Gap") = None /\
  calculateInputGaps [ (u16 "has" ++ [10] ++ u16 "Gap", VBool true) ] = [].
Proof. by vm_compute. Qed.

(** C10, amended.  Neither pattern is anchored: a name that holds [has]
    and, later, [Gap], with no line terminator between the two, is
    taken for a gap-flag question by the inversion step and by the
    extractor alike, whatever precedes [has] and follows [Gap];
    [phaseGap] and [xhasFooGapy] are such names. *)
Theorem gap_flag_match_unanchored (a m b : jsstring) (v : value) :
  forallb is_dot m = true ->
  test_has_Gap (a ++ u16 "has" ++ m ++ u16 "Gap" ++ b) = true /\
  is_Some (exec_has_Gap (a ++ u16 "has" ++ m ++ u16 "Gap" ++ b)) /\
  length (calculateInputGaps [ (a ++ u16 "has" ++ m ++ u16 "Gap" ++ b, v) ]) = 1%nat /\
  test_has_Gap (u16 "phaseGap") = true /\
  exec_has_Gap (u16 "phaseGap") = Some (u16 "e") /\
  test_has_Gap (u16 "xhasFooGapy") = true /\
  exec_has_Gap (u16 "xhasFooGapy") = Some (u16 "Foo").
Proof.
  intros H.
  pose proof (exec_has_Gap_complete a m b H) as [topic Ht].
  change (u16 "has") with lit_has. change (u16 "Gap") with lit_Gap.
  split; [|split; [|split]].
  - rewrite test_has_Gap_exec, bool_decide_is_Some. by rewrite Ht.
  - eauto.
  - by rewrite (calculateInputGaps_single _ topic).
  - by vm_compute.
Qed.

Lemma gap_flag_match_unanchored_witness :
  test_has_Gap (u16 "x" ++ u16 "has" ++ u16 "Foo" ++ u16 "Gap" ++ u16 "y") = true /\
  is_Some (exec_has_Gap (u16 "x" ++ u16 "has" ++ u16 "Foo" ++ u16 "Gap" ++ u16 "y")) /\
  length (calculateInputGaps
            [ (u16 "x" ++ u16 "has" ++ u16 "Foo" ++ u16 "Gap" ++ u16 "y", VBool false) ])
  = 1%nat /\
  test_has_Gap (u16 "phaseGap") = true /\
  exec_has_Gap (u16 "phaseGap") = Some (u16 "e") /\
  test_has_Gap (u16 "xhasFooGapy") = true /\
  exec_has_Gap (u16 "xhasFooGapy") = Some (u16 "Foo").
Proof.
  apply (gap_flag_match_unanchored (u16 "x") (u16 "Foo") (u16 "y") (VBool false)).
  vm_compute. reflexivity.
Defined.

(** Conversely, a name either pattern accepts holds [has] and, later,
    [Gap], with no line terminator in between. *)
Lemma test_has_Gap_inv (key : jsstring) :
  test_has_Gap key = true ->
  exists a m b, key = a ++ u16 "has" ++ m ++ u16 "Gap" ++ b /\
                forallb is_dot m = true.
Proof.
  rewrite test_has_Gap_exec, bool_decide_is_Some.
  destruct (exec_has_Gap key) as [m|] eqn:E; [|done].
  intros _. apply exec_has_Gap_sound in E as [Hm (a & b & ->)].
  by exists a, m, b.
Qed.

(** ** Objects *)

Lemma jsstring_eqb_eq (a b : jsstring) : jsstring_eqb a b = true <-> a = b.
Proof. unfold jsstring_eqb. apply bool_decide_eq_true. Qed.

Lemma jsstring_eqb_refl (a : jsstring) : jsstring_eqb a a = true.
Proof. by apply jsstring_eqb_eq. Qed.

Lemma jsstring_eqb_ne (a b : jsstring) : a <> b -> jsstring_eqb a b = false.
Proof. unfold jsstring_eqb. apply bool_decide_eq_false_2. Qed.

Lemma obj_lookup_update_eq k v o :
  obj_lookup k (obj_update k v o) = (fun _ => v) <$> obj_lookup k o.
Proof.
  induction o as [|[k' v'] o IH]; [done|].
  simpl. destruct (jsstring_eqb k k') eqn:E; simpl; by rewrite E.
Qed.

Lemma obj_lookup_update_ne k k' v o :
  k' <> k -> obj_lookup k' (obj_update k v o) = obj_lookup k' o.
Proof.
  intros Hne. induction o as [|[k0 v0] o IH]; [done|].
  simpl. destruct (jsstring_eqb k k0) eqn:E; simpl.
  - apply jsstring_eqb_eq in E. subst k0. by rewrite jsstring_eqb_ne.
  - by rewrite IH.
Qed.

Lemma obj_lookup_insert_index_eq n k v o :
  obj_lookup k o = None -> obj_lookup k (obj_insert_index n k v o) = Some v.
Proof.
  induction o as [|[k0 v0] o IH]; intros H.
  - simpl. by rewrite jsstring_eqb_refl.
  - simpl in H. destruct (jsstring_eqb k k0) eqn:E; [done|].
    simpl. destruct (array_index k0) as [n'|]; [destruct (n' <? n)|]; simpl.
    + rewrite E. by apply IH.
    + by rewrite jsstring_eqb_refl.
    + by rewrite jsstring_eqb_refl.
Qed.

Lemma obj_lookup_insert_index_ne n k k' v o :
  k' <> k -> obj_lookup k' (obj_insert_index n k v o) = obj_lookup k' o.
Proof.
  intros Hne. induction o as [|[k0 v0] o IH].
  - simpl. by rewrite jsstring_eqb_ne.
  - simpl. destruct (array_index k0) as [n'|]; [destruct (n' <? n)|]; simpl.
    + by rewrite IH.
    + by rewrite (jsstring_eqb_ne k' k).
    + by rewrite (jsstring_eqb_ne k' k).
Qed.

Lemma obj_lookup_app k (o1 o2 : obj) :
  obj_lookup k (o1 ++ o2) =
  match obj_lookup k o1 with Some v => Some v | None => obj_lookup k o2 end.
Proof.
  induction o1 as [|[k0 v0] o1 IH]; [done|].
  simpl. by destruct (jsstring_eqb k k0).
Qed.

(** Reading back what was just written. *)
Lemma obj_lookup_set_eq k v o : obj_lookup k (obj_set k v o) = Some v.
Proof.
  unfold obj_set. destruct (obj_lookup k o) as [v0|] eqn:E.
  - by rewrite obj_lookup_update_eq, E.
  - destruct (array_index k).
    + by apply obj_lookup_insert_index_eq.
    + rewrite obj_lookup_app, E. simpl. by rewrite jsstring_eqb_refl.
Qed.

(** Writing one property leaves the others alone. *)
Lemma obj_lookup_set_ne k k' v o :
  k' <> k -> obj_lookup k' (obj_set k v o) = obj_lookup k' o.
Proof.
  intros Hne. unfold obj_set. destruct (obj_lookup k o) as [v0|] eqn:E.
  - by apply obj_lookup_update_ne.
  - destruct (array_index k).
    + by apply obj_lookup_insert_index_ne.
    + rewrite obj_lookup_app. simpl. rewrite (jsstring_eqb_ne k' k) by done.
      by destruct (obj_lookup k' o).
Qed.

Lemma obj_get_set_ne k k' v o : k' <> k -> obj_get k' (obj_set k v o) = obj_get k' o.
Proof. intros H. unfold obj_get. by rewrite obj_lookup_set_ne. Qed.

Lemma obj_lookup_Some_key k v o : obj_lookup k o = Some v -> In k (Object_keys o).
Proof.
  induction o as [|[k0 v0] o IH]; [done|].
  simpl. destruct (jsstring_eqb k k0) eqn:E.
  - apply jsstring_eqb_eq in E. by left.
  - intros H. right. by apply IH.
Qed.

Lemma obj_lookup_key k o : In k (Object_keys o) -> is_Some (obj_lookup k o).
Proof.
  induction o as [|[k0 v0] o IH]; [done|].
  simpl. destruct (jsstring_eqb k k0) eqn:E; [eauto|].
  intros [H|H]; [|by apply IH].
  subst k0. by rewrite jsstring_eqb_refl in E.
Qed.

(** Spreading [source] over [target]: the properties of [source] win,
    the rest of [target] stays. *)
Lemma copy_props_fold k source target (keys : list jsstring) :
  obj_lookup k (foldl (fun t k => obj_set k (obj_get k source) t) target keys)
  = if bool_decide (k ∈ keys) then Some (obj_get k source)
    else obj_lookup k target.
Proof.
  revert target. induction keys as [|k0 keys IH]; intros target.
  - done.
  - cbn [foldl]. rewrite IH.
    destruct (decide (k ∈ keys)) as [Hin|Hin].
    + rewrite !bool_decide_eq_true_2; [done| |done]. by right.
    + rewrite (bool_decide_eq_false_2 (k ∈ keys)) by done.
      destruct (decide (k = k0)) as [->|Hne].
      * rewrite obj_lookup_set_eq. rewrite bool_decide_eq_true_2; [done|by left].
      * rewrite obj_lookup_set_ne by done.
        rewrite bool_decide_eq_false_2; [done|].
        intros [H|H]%elem_of_cons; [by subst|done].
Qed.

Lemma obj_lookup_copy_props k source target :
  obj_lookup k (copy_props source target) =
  match obj_lookup k source with
  | Some v => Some v
  | None => obj_lookup k target
  end.
Proof.
  unfold copy_props. rewrite copy_props_fold.
  destruct (obj_lookup k source) as [v|] eqn:E.
  - rewrite bool_decide_eq_true_2.
    + unfold obj_get. by rewrite E.
    + apply list_elem_of_In. by eapply obj_lookup_Some_key.
  - rewrite bool_decide_eq_false_2; [done|].
    intros H%list_elem_of_In. apply obj_lookup_key in H as [v Hv]. congruence.
Qed.

(** ** The normalisation acts on one object of the heap *)

Lemma heap_obj_lookup l (h : heap) o : h !! l = Some o -> heap_obj l h = o.
Proof. unfold heap_obj. by intros ->. Qed.

Lemma heap_obj_alter f l (h : heap) o :
  h !! l = Some o -> heap_obj l (alter f l h) = f o.
Proof.
  intros H. unfold heap_obj. by rewrite list_lookup_alter_eq, H.
Qed.

Lemma fold_heap_write (F : jsstring -> obj -> value) (keys : list jsstring) a (h : heap) :
  foldl (fun h k => heap_write a k (F k (heap_obj a h)) h) h keys
  = alter (fun o => foldl (fun o k => obj_set k (F k o) o) o keys) a h.
Proof.
  revert h. induction keys as [|k keys IH]; intros h.
  - simpl. symmetry. by apply list_alter_id.
  - cbn [foldl]. rewrite IH. unfold heap_write.
    rewrite list_alter_alter_eq. apply list_alter_ext; [|done].
    intros o Ho. simpl. by rewrite (heap_obj_lookup _ _ _ Ho).
Qed.

Lemma invert_gap_answers_alter a (h : heap) :
  invert_gap_answers a h = alter invert_obj a h.
Proof.
  unfold invert_gap_answers, heap_read.
  rewrite (fold_heap_write (fun k o => js_not (obj_get k o))).
  apply list_alter_ext; [|done].
  intros o Ho. by rewrite (heap_obj_lookup _ _ _ Ho).
Qed.

Lemma suppress_pen_test_alter a (h : heap) :
  suppress_pen_test a h = alter suppress_obj a h.
Proof.
  unfold suppress_pen_test, heap_read.
  destruct (truthy (obj_get (u16 "hasPenTestGap") (heap_obj a h))) eqn:E.
  - rewrite (fold_heap_write (fun _ _ => VStr (u16 "*TBD*"))).
    apply list_alter_ext; [|done].
    intros o Ho. unfold suppress_obj.
    rewrite (heap_obj_lookup _ _ _ Ho) in E. by rewrite E.
  - rewrite <- (list_alter_id (fun o : obj => o) h a) at 1 by done.
    apply list_alter_ext; [|done].
    intros o Ho. unfold suppress_obj.
    rewrite (heap_obj_lookup _ _ _ Ho) in E. by rewrite E.
Qed.

Lemma normalize_answers_alter a (h : heap) :
  normalize_answers a h = alter (fun o => suppress_obj (invert_obj o)) a h.
Proof.
  unfold normalize_answers.
  rewrite suppress_pen_test_alter, invert_gap_answers_alter.
  by rewrite list_alter_alter_eq.
Qed.

(** ** The two steps on an object *)

Lemma invert_fold (keys : list jsstring) (o : obj) (q : jsstring) :
  NoDup keys ->
  obj_lookup q (foldl (fun o gap => obj_set gap (js_not (obj_get gap o)) o) o keys)
  = if bool_decide (q ∈ keys) then Some (js_not (obj_get q o))
    else obj_lookup q o.
Proof.
  revert o. induction keys as [|k keys IH]; intros o Hnd; [done|].
  apply NoDup_cons in Hnd as [Hk Hnd].
  cbn [foldl]. rewrite (IH _ Hnd).
  destruct (decide (q = k)) as [->|Hne].
  - rewrite (bool_decide_eq_false_2 (k ∈ keys)) by done.
    rewrite obj_lookup_set_eq. rewrite bool_decide_eq_true_2; [done|by left].
  - rewrite obj_get_set_ne, obj_lookup_set_ne by done.
    destruct (decide (q ∈ keys)) as [Hin|Hin].
    + rewrite !bool_decide_eq_true_2; [done| |done]. by right.
    + rewrite !bool_decide_eq_false_2; [done| |done].
      intros [H|H]%elem_of_cons; [by subst|done].
Qed.

(** After the inversion, a gap-flag question holds the negation of its
    raw answer. *)
Lemma invert_obj_flag (raw : obj) (q : jsstring) (v : value) :
  NoDup (Object_keys raw) ->
  obj_lookup q raw = Some v ->
  test_has_Gap q = true ->
  obj_lookup q (invert_obj raw) = Some (js_not v).
Proof.
  intros Hnd Hq Ht. unfold invert_obj.
  rewrite invert_fold
    by (by apply NoDup_ListNoDup, List.NoDup_filter, NoDup_ListNoDup).
  rewrite bool_decide_eq_true_2.
  - unfold obj_get. by rewrite Hq.
  - apply list_elem_of_In, filter_In. split; [|done].
    by eapply obj_lookup_Some_key.
Qed.

(** The questions of the pen-test group are not gap-flag questions. *)
Lemma PEN_TEST_QUESTIONS_not_flags :
  forallb (fun item => negb (test_has_Gap item)) PEN_TEST_QUESTIONS = true.
Proof. by vm_compute. Qed.

Lemma suppress_obj_other (o : obj) (q : jsstring) :
  ~ In q PEN_TEST_QUESTIONS ->
  obj_lookup q (suppress_obj o) = obj_lookup q o.
Proof.
  intros Hq. unfold suppress_obj.
  destruct (truthy (obj_get (u16 "hasPenTestGap") o)); [|done].
  unfold PEN_TEST_QUESTIONS in *. cbn [foldl].
  rewrite !obj_lookup_set_ne; [done|..]; intros ->; apply Hq; simpl; tauto.
Qed.

Lemma suppress_obj_TBD (o : obj) :
  truthy (obj_get (u16 "hasPenTestGap") o) = true ->
  Forall (fun item => obj_lookup item (suppress_obj o) = Some (VStr (u16 "*TBD*")))
         PEN_TEST_QUESTIONS.
Proof.
  intros H. unfold suppress_obj. rewrite H.
  unfold PEN_TEST_QUESTIONS. cbn [foldl].
  repeat apply Forall_cons_2; [| | | |by apply Forall_nil].
  - rewrite !obj_lookup_set_ne by (by vm_compute). apply obj_lookup_set_eq.
  - rewrite !obj_lookup_set_ne by (by vm_compute). apply obj_lookup_set_eq.
  - rewrite !obj_lookup_set_ne by (by vm_compute). apply obj_lookup_set_eq.
  - apply obj_lookup_set_eq.
Qed.

(** ** The normalisation step *)

(** The normalisation step alone: for every question of the raw
    answers whose name the pattern accepts, the normalised answer is
    the negation of the raw one; the suppression that follows does not
    touch it. *)
Theorem gap_flag_inverted_once (h : heap) (answers : loc) (raw : obj)
    (questionName : jsstring) (v : value) :
  h !! answers = Some raw ->
  NoDup (Object_keys raw) ->
  obj_lookup questionName raw = Some v ->
  test_has_Gap questionName = true ->
  obj_lookup questionName (heap_obj answers (normalize_answers answers h))
  = Some (js_not v) /\
  NoDup (List.filter test_has_Gap (Object_keys raw)) /\
  js_not (VBool true) = VBool false /\
  js_not (VBool false) = VBool true.
Proof.
  intros Hraw Hnd Hq Ht. split; [|split; [|done]].
  - rewrite normalize_answers_alter, (heap_obj_alter _ _ _ _ Hraw).
    rewrite suppress_obj_other; [by apply invert_obj_flag|].
    pose proof PEN_TEST_QUESTIONS_not_flags as Hpen.
    rewrite forallb_forall in Hpen. intros Hin%Hpen.
    by rewrite Ht in Hin.
  - by apply NoDup_ListNoDup, List.NoDup_filter, NoDup_ListNoDup.
Qed.

Lemma gap_flag_inverted_once_witness :
  obj_lookup (u16 "hasPenTestGap")
    (heap_obj 0 (normalize_answers 0
       [ [ (u16 "hasPenTestGap", VBool true); (u16 "lastPenTestDate", VStr (u16 "2020-01-01")) ] ]))
  = Some (js_not (VBool true)) /\
  NoDup (List.filter test_has_Gap
           (Object_keys [ (u16 "hasPenTestGap", VBool true);
                          (u16 "lastPenTestDate", VStr (u16 "2020-01-01")) ])) /\
  js_not (VBool true) = VBool false /\
  js_not (VBool false) = VBool true.
Proof.
  apply (gap_flag_inverted_once
           [ [ (u16 "hasPenTestGap", VBool true);
               (u16 "lastPenTestDate", VStr (u16 "2020-01-01")) ] ]
           0%nat _ (u16 "hasPenTestGap") (VBool true)).
  - reflexivity.
  - apply (bool_decide_unpack _). vm_compute. exact I.
  - reflexivity.
  - vm_compute. reflexivity.
Defined.

(** The normalisation step alone: when [hasPenTestGap] is true once
    the gap flags are inverted, the answers listed in
    [PEN_TEST_QUESTIONS] all read [*TBD*] afterwards. *)
Theorem pen_test_answers_suppressed (h : heap) (answers : loc) :
  truthy (heap_read answers (u16 "hasPenTestGap") (invert_gap_answers answers h)) = true ->
  Forall (fun item =>
            heap_read answers item (normalize_answers answers h) = VStr (u16 "*TBD*"))
         PEN_TEST_QUESTIONS.
Proof.
  unfold heap_read. rewrite invert_gap_answers_alter, normalize_answers_alter.
  destruct (h !! answers) as [raw|] eqn:E.
  - rewrite !(heap_obj_alter _ _ _ _ E). intros H.
    eapply Forall_impl; [by apply suppress_obj_TBD|].
    intros item Hi. unfold obj_get. by rewrite Hi.
  - unfold heap_obj. rewrite !list_lookup_alter_eq, E. done.
Qed.

Lemma pen_test_answers_suppressed_witness :
  Forall (fun item =>
            heap_read 0 item
              (normalize_answers 0
                 [ [ (u16 "hasPenTestGap", VBool false);
                     (u16 "lastPenTestDate", VStr (u16 "2020-01-01")) ] ])
            = VStr (u16 "*TBD*"))
         PEN_TEST_QUESTIONS.
Proof.
  apply (pen_test_answers_suppressed
           [ [ (u16 "hasPenTestGap", VBool false);
               (u16 "lastPenTestDate", VStr (u16 "2020-01-01")) ] ] 0%nat).
  vm_compute. reflexivity.
Defined.

(** ** The concatenation of the gaps *)

(** The concatenation alone: the first list comes first, each list in
    its own order. *)
Theorem combine_gaps_order (inputGaps cpGaps : list Gap) (gapA gapB : Gap) :
  take (length inputGaps) (combine_gaps inputGaps cpGaps) = inputGaps /\
  drop (length inputGaps) (combine_gaps inputGaps cpGaps) = cpGaps /\
  combine_gaps [gapA] [gapB] = [gapA; gapB].
Proof.
  unfold combine_gaps. split; [|split].
  - by rewrite take_app_length.
  - by rewrite drop_app_length.
  - done.
Qed.

(** ** The driver *)

Lemma heap_obj_alloc (h : heap) (o : obj) : heap_obj (length h) (h ++ [o]) = o.
Proof. unfold heap_obj. by rewrite list_lookup_middle. Qed.

Lemma heap_obj_alter_alloc f (h : heap) (o : obj) :
  heap_obj (length h) (alter f (length h) (h ++ [o])) = f o.
Proof. apply heap_obj_alter. by apply list_lookup_middle. Qed.

Lemma normalize_answers_length a (h : heap) :
  length (normalize_answers a h) = length h.
Proof. rewrite normalize_answers_alter. apply length_alter. Qed.

Lemma normalize_answers_obj a (h : heap) :
  heap_obj a (normalize_answers a h) = suppress_obj (invert_obj (heap_obj a h)).
Proof.
  rewrite normalize_answers_alter. unfold heap_obj.
  rewrite list_lookup_alter_eq. by destruct (h !! a).
Qed.

(** On the object the prompt has just returned. *)
Lemma normalize_answers_fresh (h : heap) (raw : obj) :
  normalize_answers (length h) (h ++ [raw])
  = h ++ [suppress_obj (invert_obj raw)].
Proof.
  rewrite normalize_answers_alter.
  rewrite <- (Nat.add_0_r (length h)) at 1. by rewrite alter_app_r.
Qed.

(** C2, as stated, fails: the inversion is written into the very object
    the prompt returned. *)
Lemma raw_answers_mutated :
  normalize_answers 0 [ [ (u16 "hasPenTestGap", VBool true) ] ]
  <> [ [ (u16 "hasPenTestGap", VBool true) ] ].
Proof. vm_compute. discriminate. Qed.

Section AssessmentProperties.

Context (Entity AnnotatedRef : Type).
Context (validateOrgValues : obj -> bool).
Context (safeInquirerPrompt : option jsstring -> outcome obj).
Context (generatePolicyTOC : PolicyBuilderConfig -> heap -> value).
Context (queryForEntityList :
  jsstring -> jsstring -> option jsstring -> jsstring -> outcome (list Entity)).
Context (generateRiskList : list Entity -> value).
Context (calculateCPGaps :
  jsstring -> PolicyBuilderConfig -> PolicyBuilderPaths -> heap ->
  outcome (list Gap * list AnnotatedRef)).
Context (generateGapSummary :
  list Gap -> PolicyBuilderConfig -> jsstring -> heap -> value).
Context (generateGapList : list Gap -> value).
Context (generateStandardControlsMapping :
  list AnnotatedRef -> PolicyBuilderConfig -> heap -> value).
Context (generateReport : obj -> jsstring -> PolicyBuilderPaths -> outcome unit).
Context (loadConfig : jsstring -> jsstring + obj).
Context (resolveTemplates : Env -> ProgramInput -> jsstring).
Context (toLowerCase : jsstring -> jsstring).

Local Abbreviation gatherInputs_ :=
  (gatherInputs validateOrgValues safeInquirerPrompt generatePolicyTOC).
Local Abbreviation getRisksFromRegistry_ :=
  (getRisksFromRegistry Entity queryForEntityList).
Local Abbreviation run_ :=
  (run Entity AnnotatedRef validateOrgValues safeInquirerPrompt
       generatePolicyTOC queryForEntityList generateRiskList calculateCPGaps
       generateGapSummary generateGapList generateStandardControlsMapping
       generateReport loadConfig resolveTemplates toLowerCase).

Lemma gatherInputs_frame env program config w :
  take (length (objects w)) (objects (gatherInputs_ env program config w).2)
  = objects w /\
  match (gatherInputs_ env program config w).1 with
  | Returned inputs => (length (objects w) < inputs)%nat
  | _ => True
  end.
Proof.
  destruct w as [h t]. unfold gatherInputs. run_monad.
  destruct (validateOrgValues _); cbn [negb]; run_monad.
  2:{ split; [|done]. by rewrite firstn_all. }
  destruct (safeInquirerPrompt _); run_monad;
    try (split; [by rewrite firstn_all|done]).
  rewrite normalize_answers_fresh. split.
  - rewrite <- app_assoc. by rewrite take_app_length.
  - rewrite length_app. simpl. lia.
Qed.

(** The merged context: the four derived fields apart, a property is
    the normalised answer when the interview has one and the
    organisation's otherwise. *)
Lemma gatherInputs_context env program config (h : heap) t (org raw : obj) :
  h !! organization config = Some org ->
  validateOrgValues org = true ->
  safeInquirerPrompt (standard program) = Returned raw ->
  exists ctx,
    gatherInputs_ env program config {| objects := h; trace := t |}
    = (Returned (S (length h)),
       {| objects := (h ++ [suppress_obj (invert_obj raw)]) ++ [ctx];
          trace := t ++ [EvPrompt (standard program)] |}) /\
    forall k,
      ~ In k [ u16 "date"; u16 "policyTOC"; u16 "isHIPAACoveredEntityText";
               u16 "isHIPAABusinessAssociateText" ] ->
      obj_lookup k ctx =
      match obj_lookup k (suppress_obj (invert_obj raw)) with
      | Some v => Some v
      | None => obj_lookup k org
      end.
Proof.
  destruct config as [l]. cbn [organization].
  intros Horg Hvalid Hprompt. unfold gatherInputs.
  rewrite Hprompt. run_monad.
  rewrite (heap_obj_lookup _ _ _ Horg), Hvalid. cbn [negb]. run_monad.
  rewrite normalize_answers_fresh.
  eexists. split.
  - rewrite length_app, Nat.add_1_r. reflexivity.
  - intros k Hk.
    rewrite !obj_lookup_set_ne by (intros ->; apply Hk; simpl; tauto).
    rewrite !obj_lookup_copy_props, heap_obj_alloc.
    unfold heap_obj. rewrite lookup_app_l by (by eapply lookup_lt_Some).
    rewrite Horg. simpl. by destruct (obj_lookup k org).
Qed.

(** C2, amended.  The normalisation rewrites the answers object in
    place and changes no other object of the heap; [gatherInputs]
    leaves every object that existed before the call as it was, the
    organisation of the caller's configuration among them, and the
    merged context it returns is a new object. *)
Theorem normalisation_frame env program config (w : world) (answers : loc) (h : heap) :
  heap_obj answers (normalize_answers answers h)
  = suppress_obj (invert_obj (heap_obj answers h)) /\
  length (normalize_answers answers h) = length h /\
  take answers (normalize_answers answers h) = take answers h /\
  drop (S answers) (normalize_answers answers h) = drop (S answers) h /\
  take (length (objects w)) (objects (gatherInputs_ env program config w).2)
  = objects w /\
  match (gatherInputs_ env program config w).1 with
  | Returned inputs => (length (objects w) < inputs)%nat
  | _ => True
  end.
Proof.
  split; [apply normalize_answers_obj|].
  split; [apply normalize_answers_length|].
  rewrite normalize_answers_alter.
  split; [by apply take_alter_ge|].
  split; [apply drop_alter_lt; lia|].
  apply gatherInputs_frame.
Qed.

(** C8.  When the risk list is not requested and every other step of the
    run succeeds, the run completes: the registry is not queried, and
    the context handed to the report holds the fixed text under
    [riskList]. *)
Theorem run_without_risks env program (w : world) (org raw : obj) :
  missing (includeRisks program) = true ->
  missing (standard program) = false ->
  missing (config program) = false ->
  loadConfig (default [] (config program)) = inr org ->
  validateOrgValues org = true ->
  safeInquirerPrompt (standard program) = Returned raw ->
  (forall s c p h, returned (calculateCPGaps s c p h) = true) ->
  (forall ctx s p, returned (generateReport ctx s p) = true) ->
  exists ctx w',
    run_ env program w = (Returned tt, w') /\
    trace w' = trace w ++
      [ EvPrompt (standard program);
        EvRenderControls (toLowerCase (default [] (standard program)));
        EvReport ctx (toLowerCase (default [] (standard program))) ] /\
    obj_lookup (u16 "riskList") ctx
    = Some (VStr (u16 "Detailed risk items omitted.")).
Proof.
  intros Hincl Hstd Hcfg Hload Hvalid Hprompt Hcp Hrep.
  destruct w as [h t]. unfold run, gatherInputs.
  rewrite Hstd, Hcfg, Hincl, Hload, Hprompt. cbn [orb negb]. run_monad.
  rewrite heap_obj_alloc, Hvalid. cbn [negb]. run_monad.
  rewrite normalize_answers_fresh.
  match goal with
  | |- context [calculateCPGaps ?s ?c ?p ?hh] =>
      pose proof (Hcp s c p hh) as Hcp';
      destruct (calculateCPGaps s c p hh) as [cp| | |]; try done
  end.
  match goal with
  | |- context [generateReport ?c ?s ?p] =>
      pose proof (Hrep c s p) as Hrep';
      destruct (generateReport c s p) as [[]| | |]; try done
  end.
  eexists _, _. split; [reflexivity|]. split.
  - cbn [trace]. rewrite <- 2!app_assoc. reflexivity.
  - by rewrite heap_obj_alter_alloc, obj_lookup_copy_props.
Qed.

(** C9.  When the risk list is requested and the account or the token
    is missing, [getRisksFromRegistry] ends with the usage error before
    it reaches the registry, and so does the run: it stops with exit
    code 2 when no standard or no configuration is given, with the
    fatal error of code 126 when the configuration cannot be loaded,
    and with the usage error of the missing credential otherwise; in
    every case the code is not zero, no query has been sent and no
    report has been produced. *)
Theorem risks_need_credentials env program (w : world) :
  missing (includeRisks program) = false ->
  missing (account program) = true \/ missing (apiToken program) = true ->
  getRisksFromRegistry_ env program w = (missing_credentials program, w) /\
  run_ env program w
  = (if missing (standard program) || missing (config program)
     then (Exited 2, {| objects := objects w; trace := trace w ++ [EvHelp] |})
     else match loadConfig (default [] (config program)) with
          | inl err =>
              (Fatal (u16 "Unable to load configuration from "
                        ++ default [] (config program) ++ u16 " : " ++ err)
                     EUSAGEERROR, w)
          | inr org =>
              (missing_credentials program,
               {| objects := objects w ++ [org]; trace := trace w |})
          end) /\
  (exists code, exit_code (run_ env program w).1 = Some code /\ code <> 0%Z) /\
  existsb is_query_or_report (trace (run_ env program w).2)
  = existsb is_query_or_report (trace w).
Proof.
  intros Hincl Hcred.
  assert (forall w', getRisksFromRegistry_ env program w'
                     = (missing_credentials program, w')) as Hrisk.
  { intros w'. unfold getRisksFromRegistry, missing_credentials.
    destruct (missing (account program)); [done|].
    destruct Hcred as [Hcred|Hcred]; [done|]. by rewrite Hcred. }
  split; [apply Hrisk|].
  assert (run_ env program w
          = (if missing (standard program) || missing (config program)
             then (Exited 2, {| objects := objects w; trace := trace w ++ [EvHelp] |})
             else match loadConfig (default [] (config program)) with
                  | inl err =>
                      (Fatal (u16 "Unable to load configuration from "
                                ++ default [] (config program) ++ u16 " : " ++ err)
                             EUSAGEERROR, w)
                  | inr org =>
                      (missing_credentials program,
                       {| objects := objects w ++ [org]; trace := trace w |})
                  end)) as Hrun.
  { unfold run. rewrite Hincl. cbn [negb].
    destruct (missing (standard program) || missing (config program)); [done|].
    destruct (loadConfig (default [] (config program))) as [err|org]; [done|].
    unfold bind at 1 2. unfold alloc at 1. unfold ret at 1.
    unfold bind at 1 2. by rewrite Hrisk. }
  split; [exact Hrun|]. rewrite Hrun.
  destruct (missing (standard program) || missing (config program)).
  { split; [by exists 2%Z|]. cbn [snd trace].
    rewrite existsb_app. simpl. by rewrite !orb_false_r. }
  destruct (loadConfig (default [] (config program))) as [err|org].
  - split; [by exists EUSAGEERROR|done].
  - split; [by exists EUSAGEERROR|done].
Qed.

End AssessmentProperties.

Lemma run_without_risks_witness :
  exists ctx w',
    Sample.run (Sample.program None None None) Sample.start = (Returned tt, w') /\
    trace w' = trace Sample.start ++
      [ EvPrompt (Some (u16 "HIPAA"));
        EvRenderControls (u16 "hipaa");
        EvReport ctx (u16 "hipaa") ] /\
    obj_lookup (u16 "riskList") ctx
    = Some (VStr (u16 "Detailed risk items omitted.")).
Proof.
  apply (run_without_risks unit unit
           (fun _ => true)
           (fun _ => Returned Sample.raw)
           (fun _ _ => VStr (u16 "- policies"))
           (fun _ _ _ _ => Returned [tt])
           (fun _ => VStr (u16 "1 risk"))
           (fun _ _ _ _ =>
              Returned ([ mkGap (u16 "164.308(a)(1)") (u16 "Risk analysis") ], [tt]))
           (fun gaps _ _ _ => VStr (u16 "gaps found"))
           (fun _ => VStr (u16 "1. gap"))
           (fun _ _ _ => VStr (u16 "| clause | status |"))
           (fun _ _ _ => Returned tt)
           (fun _ => inr Sample.org)
           (fun _ _ => u16 "templates")
           Sample.lower_ascii
           Sample.env (Sample.program None None None) Sample.start
           Sample.org Sample.raw);
    try reflexivity; intros; reflexivity.
Defined.

Lemma risks_need_credentials_witness :
  Sample.run (Sample.program (Some (u16 "true")) None (Some (u16 "token")))
             Sample.start
  = (Fatal (u16 "Missing -a, --account <name> input!") EUSAGEERROR,
     {| objects := [Sample.org]; trace := [] |}).
Proof.
  destruct (risks_need_credentials unit unit
              (fun _ => true)
              (fun _ => Returned Sample.raw)
              (fun _ _ => VStr (u16 "- policies"))
              (fun _ _ _ _ => Returned [tt])
              (fun _ => VStr (u16 "1 risk"))
              (fun _ _ _ _ =>
                 Returned ([ mkGap (u16 "164.308(a)(1)") (u16 "Risk analysis") ], [tt]))
              (fun gaps _ _ _ => VStr (u16 "gaps found"))
              (fun _ => VStr (u16 "1. gap"))
              (fun _ _ _ => VStr (u16 "| clause | status |"))
              (fun _ _ _ => Returned tt)
              (fun _ => inr Sample.org)
              (fun _ _ => u16 "templates")
              Sample.lower_ascii
              Sample.env
              (Sample.program (Some (u16 "true")) None (Some (u16 "token")))
              Sample.start)
    as (_ & Hrun & _).
  - reflexivity.
  - left. reflexivity.
  - exact Hrun.
Defined.

(** ** Further properties of the patterns and of the extractor *)

(** X1.  The extractor reports one gap for each name the inversion step
    takes for a gap flag, in the order of the names, and nothing else:
    the two patterns single out the same properties. *)
Theorem gaps_follow_inverted_names (inputs : obj) :
  calculateInputGaps inputs
  = (fun key => gap_of_topic (default [] (exec_has_Gap key)))
      <$> List.filter test_has_Gap (Object_keys inputs).
Proof.
  rewrite calculateInputGaps_omap.
  induction (Object_keys inputs) as [|k ks IH]; [done|].
  change (omap gap_of_key (k :: ks))
    with (match gap_of_key k with
          | Some g => g :: omap gap_of_key ks
          | None => omap gap_of_key ks
          end).
  cbn [List.filter]. rewrite test_has_Gap_exec, bool_decide_is_Some.
  unfold gap_of_key at 1.
  destruct (exec_has_Gap k) as [name|] eqn:E; rewrite IH; [|reflexivity].
  cbn [fmap list_fmap]. by rewrite E.
Qed.

(** X2.  A name the pattern accepts has at least six characters and
    holds [has] and, later, [Gap], with no line terminator between the
    two. *)
Theorem gap_flag_name_shape (key : jsstring) :
  test_has_Gap key = true ->
  (6 <= length key)%nat /\
  exists a m b, key = a ++ u16 "has" ++ m ++ u16 "Gap" ++ b /\
                forallb is_dot m = true.
Proof.
  rewrite test_has_Gap_exec, bool_decide_is_Some.
  destruct (exec_has_Gap key) as [m|] eqn:E; [|done].
  intros _. apply exec_has_Gap_sound in E as [Hm (a & b & ->)].
  split; [|by exists a, m, b].
  rewrite !length_app. change (length lit_has) with 3%nat.
  change (length lit_Gap) with 3%nat. lia.
Qed.

Lemma gap_flag_name_shape_witness :
  (6 <= length (u16 "phaseGap"))%nat /\
  exists a m b, u16 "phaseGap" = a ++ u16 "has" ++ m ++ u16 "Gap" ++ b /\
                forallb is_dot m = true.
Proof. apply (gap_flag_name_shape (u16 "phaseGap")). vm_compute. reflexivity. Defined.

(** X3.  For a name made of [has], a topic without line terminator and
    [Gap], the extractor captures the whole topic, also when the topic
    itself holds [has] or [Gap] (the match starts at the first [has]
    and the star runs to the last [Gap]), and gives the one gap of
    that topic. *)
Theorem exact_name_gives_topic_gap (topic : jsstring) (v : value) :
  forallb is_dot topic = true ->
  exec_has_Gap (u16 "has" ++ topic ++ u16 "Gap") = Some topic /\
  calculateInputGaps [ (u16 "has" ++ topic ++ u16 "Gap", v) ]
  = [ {| ref := trim (replace_upper_lower topic); title := u16 "(see above)" |} ].
Proof.
  intros H. pose proof (exec_has_Gap_exact topic H) as E.
  split; [exact E|].
  rewrite (calculateInputGaps_single (u16 "has" ++ topic ++ u16 "Gap") topic v E).
  by rewrite replace_upper_lower_positions.
Qed.

Lemma exact_name_gives_topic_gap_witness :
  exec_has_Gap (u16 "has" ++ u16 "GapAnalysis" ++ u16 "Gap") = Some (u16 "GapAnalysis") /\
  calculateInputGaps [ (u16 "has" ++ u16 "GapAnalysis" ++ u16 "Gap", VBool true) ]
  = [ {| ref := trim (replace_upper_lower (u16 "GapAnalysis"));
         title := u16 "(see above)" |} ].
Proof.
  apply (exact_name_gives_topic_gap (u16 "GapAnalysis") (VBool true)).
  vm_compute. reflexivity.
Defined.

(** X4.  The gaps of a mapping listed in two parts are the gaps of the
    first part followed by those of the second: the output follows the
    order of the names, and an empty mapping has no gap. *)
Theorem input_gaps_in_key_order (o1 o2 : obj) :
  calculateInputGaps (o1 ++ o2) = calculateInputGaps o1 ++ calculateInputGaps o2 /\
  calculateInputGaps [] = [].
Proof. split; [apply calculateInputGaps_app|done]. Qed.

(** X5.  A mapping none of whose names the pattern accepts has no input
    gap. *)
Theorem no_flag_no_input_gap (inputs : obj) :
  forallb (fun key => negb (test_has_Gap key)) (Object_keys inputs) = true ->
  calculateInputGaps inputs = [].
Proof.
  rewrite calculateInputGaps_omap.
  induction (Object_keys inputs) as [|k ks IH]; [done|].
  cbn [forallb]. intros [Hk Hks]%andb_true_iff.
  change (omap gap_of_key (k :: ks))
    with (match gap_of_key k with
          | Some g => g :: omap gap_of_key ks
          | None => omap gap_of_key ks
          end).
  rewrite test_has_Gap_exec, bool_decide_is_Some in Hk. unfold gap_of_key at 1.
  destruct (exec_has_Gap k); [done|]. by apply IH.
Qed.

Lemma no_flag_no_input_gap_witness :
  calculateInputGaps
    [ (u16 "companyShortName", VStr (u16 "Acme"));
      (u16 "lastPenTestDate", VStr (u16 "2020-01-01"));
      (u16 "hasgap", VBool true) ] = [].
Proof.
  apply (no_flag_no_input_gap
           [ (u16 "companyShortName", VStr (u16 "Acme"));
             (u16 "lastPenTestDate", VStr (u16 "2020-01-01"));
             (u16 "hasgap", VBool true) ]).
  vm_compute. reflexivity.
Defined.

(** ** Further properties of the rewriting and of the trimming *)

Lemma without_spaces_positions s :
  without_spaces (space_before_upper_lower s) = without_spaces s.
Proof.
  induction s as [|c s IH]; [done|].
  cbn [space_before_upper_lower]. unfold without_spaces in *.
  rewrite List.filter_app. cbn [List.filter]. rewrite IH.
  by destruct (is_upper c && _).
Qed.

Lemma length_positions s :
  (length s <= length (space_before_upper_lower s) <= 2 * length s)%nat.
Proof.
  induction s as [|c s IH]; [simpl; lia|].
  cbn [space_before_upper_lower]. rewrite length_app.
  destruct (is_upper c && _); simpl; lia.
Qed.

(** X6.  The rewriting of a topic only puts spaces in: taking the
    spaces out of the result and out of the topic gives the same
    string, and the result is at least as long as the topic and at
    most twice as long. *)
Theorem replace_only_adds_spaces (name : jsstring) :
  without_spaces (replace_upper_lower name) = without_spaces name /\
  (length name <= length (replace_upper_lower name) <= 2 * length name)%nat.
Proof.
  rewrite replace_upper_lower_positions.
  split; [apply without_spaces_positions|apply length_positions].
Qed.

Lemma trimStart_split s :
  exists w, s = w ++ trimStart s /\ forallb is_white w = true.
Proof.
  induction s as [|c s (w & IH & Hw)]; [by exists []|].
  simpl. destruct (is_white c) eqn:E.
  - exists (c :: w). simpl. rewrite E, Hw. by rewrite <- IH.
  - by exists [].
Qed.

Lemma trim_takes_edges_only_aux (s : jsstring) :
  exists l r, s = l ++ trim s ++ r /\
              forallb is_white l = true /\ forallb is_white r = true.
Proof.
  destruct (trimStart_split s) as (l & Hl & Hwl).
  destruct (trimStart_split (rev (trimStart s))) as (r & Hr & Hwr).
  exists l, (rev r). split; [|split; [done|by rewrite forallb_rev]].
  unfold trim, trimEnd. rewrite <- rev_app_distr, <- Hr, rev_involutive.
  exact Hl.
Qed.

(** Trimming takes white space off the two ends and nothing else:
    the string is the trimmed string between two runs of white space. *)
Theorem trim_takes_edges_only (s : jsstring) :
  exists l r, s = l ++ trim s ++ r /\
              forallb is_white l = true /\ forallb is_white r = true.
Proof. apply trim_takes_edges_only_aux. Qed.

Lemma trimStart_clean s :
  match head s with Some c => negb (is_white c) | None => true end = true ->
  trimStart s = s.
Proof.
  destruct s as [|c s]; [done|]. simpl. by destruct (is_white c).
Qed.

Lemma trim_clean s : clean_edges s = true -> trim s = s.
Proof.
  unfold clean_edges. intros [Hh Hl]%andb_true_iff.
  unfold trim, trimEnd. rewrite (trimStart_clean s Hh).
  rewrite trimStart_clean; [apply rev_involutive|]. by rewrite head_rev.
Qed.

Lemma trim_idempotent (s : jsstring) : trim (trim s) = trim s.
Proof. apply trim_clean, trim_clean_edges. Qed.

Lemma filter_white_positions s :
  List.filter (fun c => negb (is_white c)) (space_before_upper_lower s)
  = List.filter (fun c => negb (is_white c)) s.
Proof.
  induction s as [|c s IH]; [done|].
  cbn [space_before_upper_lower]. rewrite List.filter_app.
  cbn [List.filter]. rewrite IH. by destruct (is_upper c && _).
Qed.

Lemma filter_white_all (w : jsstring) :
  forallb is_white w = true -> List.filter (fun c => negb (is_white c)) w = [].
Proof.
  induction w as [|c w IH]; [done|].
  cbn [forallb List.filter]. intros [Hc Hw]%andb_true_iff.
  rewrite Hc. by apply IH.
Qed.

(** X7.  The [ref] computed from a topic (lines 178 to 182) holds the
    characters of the topic other than white space, all of them and in
    their order: rewriting and trimming add and remove white space
    only. *)
Theorem ref_keeps_topic_letters (name : jsstring) :
  List.filter (fun c => negb (is_white c)) (trim (replace_upper_lower name))
  = List.filter (fun c => negb (is_white c)) name.
Proof.
  transitivity (List.filter (fun c => negb (is_white c)) (replace_upper_lower name)).
  - destruct (trim_takes_edges_only_aux (replace_upper_lower name))
      as (l & r & Hs & Hl & Hr).
    apply (f_equal (List.filter (fun c => negb (is_white c)))) in Hs.
    rewrite !List.filter_app in Hs.
    rewrite (filter_white_all l Hl), (filter_white_all r Hr), app_nil_r in Hs.
    by rewrite Hs.
  - by rewrite replace_upper_lower_positions, filter_white_positions.
Qed.

(** ** Further properties of the normalisation *)

Lemma Object_keys_update k v o : Object_keys (obj_update k v o) = Object_keys o.
Proof.
  induction o as [|[k0 v0] o IH]; [done|].
  simpl. destruct (jsstring_eqb k k0); simpl; [done|]. by rewrite <- IH.
Qed.

Lemma Object_keys_set_present k v o :
  In k (Object_keys o) -> Object_keys (obj_set k v o) = Object_keys o.
Proof.
  intros [v0 H]%obj_lookup_key. unfold obj_set. rewrite H.
  apply Object_keys_update.
Qed.

Lemma obj_lookup_not_key k o : ~ In k (Object_keys o) -> obj_lookup k o = None.
Proof.
  intros H. destruct (obj_lookup k o) as [v|] eqn:E; [|done].
  destruct H. by eapply obj_lookup_Some_key.
Qed.

(** Two objects with the same names in the same order and the same
    reading of each name are the same object. *)
Lemma obj_ext (o1 o2 : obj) :
  Object_keys o1 = Object_keys o2 ->
  NoDup (Object_keys o1) ->
  (forall k, obj_lookup k o1 = obj_lookup k o2) ->
  o1 = o2.
Proof.
  revert o2. induction o1 as [|[k1 v1] o1 IH]; intros [|[k2 v2] o2] Hk Hnd Hl;
    try done.
  simpl in Hk. injection Hk as -> Hk.
  apply NoDup_cons in Hnd as [Hfresh Hnd].
  pose proof (Hl k2) as H2. simpl in H2. rewrite jsstring_eqb_refl in H2.
  injection H2 as ->. f_equal. apply IH; [done|done|].
  intros k. destruct (decide (k = k2)) as [->|Hne].
  - rewrite !obj_lookup_not_key; [done| |].
    + rewrite <- Hk. by intros ?%list_elem_of_In.
    + by intros ?%list_elem_of_In.
  - pose proof (Hl k) as H. simpl in H. by rewrite jsstring_eqb_ne in H.
Qed.

Lemma invert_fold_keys (keys : list jsstring) (o : obj) :
  Forall (fun k => In k (Object_keys o)) keys ->
  Object_keys (foldl (fun o gap => obj_set gap (js_not (obj_get gap o)) o) o keys)
  = Object_keys o.
Proof.
  revert o. induction keys as [|k keys IH]; intros o H; [done|].
  apply Forall_cons in H as [Hk H]. cbn [foldl].
  rewrite IH; [by apply Object_keys_set_present|].
  by rewrite Object_keys_set_present.
Qed.

Lemma invert_fold_other (keys : list jsstring) (o : obj) (q : jsstring) :
  ~ In q keys ->
  obj_lookup q (foldl (fun o gap => obj_set gap (js_not (obj_get gap o)) o) o keys)
  = obj_lookup q o.
Proof.
  revert o. induction keys as [|k keys IH]; intros o H; [done|].
  cbn [foldl]. rewrite IH by (intros ?; apply H; by right).
  apply obj_lookup_set_ne. intros ->. apply H. by left.
Qed.

Lemma Object_keys_invert_obj (o : obj) : Object_keys (invert_obj o) = Object_keys o.
Proof.
  apply invert_fold_keys, Forall_forall.
  intros k Hk%list_elem_of_In. by apply filter_In in Hk as [Hk _].
Qed.

(** An answer whose name is not a gap flag is not inverted. *)
Lemma invert_obj_other (o : obj) (q : jsstring) :
  test_has_Gap q = false -> obj_lookup q (invert_obj o) = obj_lookup q o.
Proof.
  intros Hq. apply invert_fold_other.
  intros [_ H]%filter_In. congruence.
Qed.

Lemma obj_lookup_invert_entry (o : obj) (q : jsstring) :
  obj_lookup q (invert_entry <$> o)
  = (fun v => if test_has_Gap q then js_not v else v) <$> obj_lookup q o.
Proof.
  induction o as [|[k v] o IH]; [done|].
  cbn [fmap list_fmap obj_lookup]. unfold invert_entry at 1. cbn [fst snd].
  destruct (test_has_Gap k) eqn:Ek; cbn [obj_lookup];
    destruct (jsstring_eqb q k) eqn:E; try exact IH;
    apply jsstring_eqb_eq in E; subst q; by rewrite Ek.
Qed.

Lemma Object_keys_invert_entry (o : obj) :
  Object_keys (invert_entry <$> o) = Object_keys o.
Proof.
  unfold Object_keys. rewrite <- list_fmap_compose. apply list_fmap_ext.
  intros i [k v] _. unfold invert_entry. simpl. by destruct (test_has_Gap k).
Qed.

Lemma invert_obj_pointwise (raw : obj) :
  NoDup (Object_keys raw) -> invert_obj raw = invert_entry <$> raw.
Proof.
  intros Hnd. apply obj_ext.
  - by rewrite Object_keys_invert_obj, Object_keys_invert_entry.
  - by rewrite Object_keys_invert_obj.
  - intros q. rewrite obj_lookup_invert_entry.
    destruct (test_has_Gap q) eqn:Hq.
    + destruct (obj_lookup q raw) as [v|] eqn:E.
      * by apply invert_obj_flag.
      * apply obj_lookup_not_key. rewrite Object_keys_invert_obj.
        intros [v Hv]%obj_lookup_key. congruence.
    + rewrite invert_obj_other by done. by destruct (obj_lookup q raw).
Qed.

Lemma heap_obj_alter_total f a (h : heap) :
  f [] = [] -> heap_obj a (alter f a h) = f (heap_obj a h).
Proof.
  intros Hf. unfold heap_obj. rewrite list_lookup_alter_eq.
  by destruct (h !! a).
Qed.

Lemma heap_obj_invert a (h : heap) :
  heap_obj a (invert_gap_answers a h) = invert_obj (heap_obj a h).
Proof. rewrite invert_gap_answers_alter. by apply heap_obj_alter_total. Qed.

(** X8.  The inversion keeps every answer in its place: the answers of
    the gap-flag questions are negated, all the others are left as
    they are, and no question is added, dropped or moved. *)
Theorem inversion_is_pointwise (h : heap) (answers : loc) (raw : obj) :
  h !! answers = Some raw ->
  NoDup (Object_keys raw) ->
  invert_gap_answers answers h = <[answers := invert_entry <$> raw]> h.
Proof.
  intros Hraw Hnd. rewrite invert_gap_answers_alter, list_insert_alter.
  apply list_alter_ext; [|done].
  intros o Ho. rewrite Hraw in Ho. injection Ho as <-.
  by apply invert_obj_pointwise.
Qed.

Lemma inversion_is_pointwise_witness :
  invert_gap_answers 0
    [ [ (u16 "hasPenTestGap", VBool true);
        (u16 "lastPenTestDate", VStr (u16 "2020-01-01"));
        (u16 "hasEncryptionGap", VBool false) ] ]
  = <[0%nat := invert_entry <$>
        [ (u16 "hasPenTestGap", VBool true);
          (u16 "lastPenTestDate", VStr (u16 "2020-01-01"));
          (u16 "hasEncryptionGap", VBool false) ]]>
      [ [ (u16 "hasPenTestGap", VBool true);
          (u16 "lastPenTestDate", VStr (u16 "2020-01-01"));
          (u16 "hasEncryptionGap", VBool false) ] ].
Proof.
  apply (inversion_is_pointwise
           [ [ (u16 "hasPenTestGap", VBool true);
               (u16 "lastPenTestDate", VStr (u16 "2020-01-01"));
               (u16 "hasEncryptionGap", VBool false) ] ] 0%nat).
  - reflexivity.
  - apply (bool_decide_unpack _). vm_compute. exact I.
Defined.

Lemma invert_entry_twice (kv : jsstring * value) :
  negb (test_has_Gap kv.1) || is_boolean kv.2 = true ->
  invert_entry (invert_entry kv) = kv.
Proof.
  destruct kv as [k v]. unfold invert_entry. cbn [fst snd].
  destruct (test_has_Gap k) eqn:E; cbn [fst snd negb orb].
  - rewrite E. by destruct v as [|[]| |].
  - by rewrite E.
Qed.

(** X9.  When every gap-flag answer is a boolean, inverting a second
    time gives back the raw answers. *)
Theorem inversion_twice_restores (h : heap) (answers : loc) (raw : obj) :
  h !! answers = Some raw ->
  NoDup (Object_keys raw) ->
  flags_boolean raw = true ->
  invert_gap_answers answers (invert_gap_answers answers h) = h.
Proof.
  intros Hraw Hnd Hb.
  rewrite !invert_gap_answers_alter, list_alter_alter_eq.
  rewrite <- (list_alter_id (fun o : obj => o) h answers) at 2 by done.
  apply list_alter_ext; [|done].
  intros o Ho. rewrite Hraw in Ho. injection Ho as <-. cbn [compose].
  rewrite (invert_obj_pointwise raw Hnd).
  rewrite invert_obj_pointwise by (by rewrite Object_keys_invert_entry).
  rewrite <- list_fmap_compose. rewrite <- (list_fmap_id raw) at 2.
  apply list_fmap_ext. intros i kv Hi. cbn [compose].
  apply invert_entry_twice.
  unfold flags_boolean in Hb. rewrite forallb_forall in Hb.
  apply Hb, list_elem_of_In. by eapply list_elem_of_lookup_2.
Qed.

Lemma inversion_twice_restores_witness :
  invert_gap_answers 0
    (invert_gap_answers 0
       [ [ (u16 "hasPenTestGap", VBool true);
           (u16 "lastPenTestDate", VStr (u16 "2020-01-01"));
           (u16 "hasEncryptionGap", VBool false) ] ])
  = [ [ (u16 "hasPenTestGap", VBool true);
        (u16 "lastPenTestDate", VStr (u16 "2020-01-01"));
        (u16 "hasEncryptionGap", VBool false) ] ].
Proof.
  apply (inversion_twice_restores _ 0%nat
           [ (u16 "hasPenTestGap", VBool true);
             (u16 "lastPenTestDate", VStr (u16 "2020-01-01"));
             (u16 "hasEncryptionGap", VBool false) ]).
  - reflexivity.
  - apply (bool_decide_unpack _). vm_compute. exact I.
  - vm_compute. reflexivity.
Defined.

Lemma is_Some_lookup_set k k' v (o : obj) :
  is_Some (obj_lookup k' (obj_set k v o)) <-> k' = k \/ is_Some (obj_lookup k' o).
Proof.
  destruct (decide (k' = k)) as [->|Hne].
  - rewrite obj_lookup_set_eq. split; eauto.
  - rewrite obj_lookup_set_ne by done. split; [eauto|]. by intros [?|?].
Qed.

Lemma In_keys_lookup k (o : obj) : In k (Object_keys o) <-> is_Some (obj_lookup k o).
Proof.
  split; [apply obj_lookup_key|]. intros [v H]. by eapply obj_lookup_Some_key.
Qed.

Lemma Object_keys_suppress_obj (o : obj) (q : jsstring) :
  In q (Object_keys (suppress_obj o)) <->
  In q (Object_keys o) \/
  (truthy (obj_get (u16 "hasPenTestGap") o) = true /\ In q PEN_TEST_QUESTIONS).
Proof.
  unfold suppress_obj.
  destruct (truthy (obj_get (u16 "hasPenTestGap") o)).
  - unfold PEN_TEST_QUESTIONS. cbn [foldl].
    rewrite !In_keys_lookup, !is_Some_lookup_set. simpl. intuition.
  - intuition congruence.
Qed.

(** X10.  The normalisation never drops a question, and the only
    questions it may add are the four pen-test questions, which it adds
    when [hasPenTestGap] holds after the inversion. *)
Theorem normalisation_keeps_questions (h : heap) (answers : loc) (q : jsstring) :
  In q (Object_keys (heap_obj answers (normalize_answers answers h))) <->
  In q (Object_keys (heap_obj answers h)) \/
  (truthy (heap_read answers (u16 "hasPenTestGap") (invert_gap_answers answers h)) = true
   /\ In q PEN_TEST_QUESTIONS).
Proof.
  rewrite normalize_answers_obj, Object_keys_suppress_obj.
  unfold heap_read. by rewrite heap_obj_invert, Object_keys_invert_obj.
Qed.

(** X11.  The normalisation changes nothing but gap flags and pen-test
    answers: an answer whose name the pattern refuses and which is not
    one of the four pen-test questions reads after it as before. *)
Theorem normalisation_leaves_other_answers (h : heap) (answers : loc) (q : jsstring) :
  test_has_Gap q = false ->
  ~ In q PEN_TEST_QUESTIONS ->
  heap_read answers q (normalize_answers answers h) = heap_read answers q h.
Proof.
  intros Hq Hpen. unfold heap_read, obj_get.
  rewrite normalize_answers_obj, suppress_obj_other by done.
  by rewrite invert_obj_other.
Qed.

Lemma normalisation_leaves_other_answers_witness :
  heap_read 0 (u16 "securityOfficerName")
    (normalize_answers 0
       [ [ (u16 "hasPenTestGap", VBool false);
           (u16 "securityOfficerName", VStr (u16 "Ada")) ] ])
  = heap_read 0 (u16 "securityOfficerName")
      [ [ (u16 "hasPenTestGap", VBool false);
          (u16 "securityOfficerName", VStr (u16 "Ada")) ] ].
Proof.
  apply (normalisation_leaves_other_answers
           [ [ (u16 "hasPenTestGap", VBool false);
               (u16 "securityOfficerName", VStr (u16 "Ada")) ] ] 0%nat).
  - vm_compute. reflexivity.
  - vm_compute. intros H.
    repeat (destruct H as [H|H]; [discriminate H|]). exact H.
Defined.

(** X12.  When the organisation answers that it has pen testing (a
    truthy raw [hasPenTestGap]), the suppression does nothing: the
    normalisation is the inversion alone and the four pen-test answers
    read as they were given. *)
Theorem pen_test_answers_kept (h : heap) (answers : loc) (raw : obj) :
  h !! answers = Some raw ->
  NoDup (Object_keys raw) ->
  truthy (obj_get (u16 "hasPenTestGap") raw) = true ->
  normalize_answers answers h = invert_gap_answers answers h /\
  Forall (fun item =>
            heap_read answers item (normalize_answers answers h)
            = obj_get item raw)
         PEN_TEST_QUESTIONS.
Proof.
  intros Hraw Hnd Htrue.
  assert (suppress_obj (invert_obj raw) = invert_obj raw) as Hsup.
  { unfold suppress_obj, obj_get in *.
    destruct (obj_lookup (u16 "hasPenTestGap") raw) as [v|] eqn:E; [|done].
    rewrite (invert_obj_flag raw _ v Hnd E) by (by vm_compute).
    simpl in Htrue. simpl. by rewrite Htrue. }
  split.
  - rewrite normalize_answers_alter, invert_gap_answers_alter.
    apply list_alter_ext; [|done].
    intros o Ho. rewrite Hraw in Ho. by injection Ho as <-.
  - unfold heap_read. rewrite normalize_answers_obj, (heap_obj_lookup _ _ _ Hraw).
    rewrite Hsup. pose proof PEN_TEST_QUESTIONS_not_flags as Hpen.
    rewrite forallb_forall in Hpen. apply Forall_forall.
    intros item Hitem%list_elem_of_In. unfold obj_get.
    rewrite invert_obj_other; [done|].
    apply Hpen in Hitem. by destruct (test_has_Gap item).
Qed.

Lemma pen_test_answers_kept_witness :
  normalize_answers 0
    [ [ (u16 "hasPenTestGap", VBool true);
        (u16 "lastPenTestDate", VStr (u16 "2020-01-01")) ] ]
  = invert_gap_answers 0
      [ [ (u16 "hasPenTestGap", VBool true);
          (u16 "lastPenTestDate", VStr (u16 "2020-01-01")) ] ] /\
  Forall (fun item =>
            heap_read 0 item
              (normalize_answers 0
                 [ [ (u16 "hasPenTestGap", VBool true);
                     (u16 "lastPenTestDate", VStr (u16 "2020-01-01")) ] ])
            = obj_get item
                [ (u16 "hasPenTestGap", VBool true);
                  (u16 "lastPenTestDate", VStr (u16 "2020-01-01")) ])
         PEN_TEST_QUESTIONS.
Proof.
  apply (pen_test_answers_kept
           [ [ (u16 "hasPenTestGap", VBool true);
               (u16 "lastPenTestDate", VStr (u16 "2020-01-01")) ] ] 0%nat).
  - reflexivity.
  - apply (bool_decide_unpack _). vm_compute. exact I.
  - vm_compute. reflexivity.
Defined.

(** ** Further properties of the interview and of the driver *)

Lemma alter_alloc f (h : heap) (o : obj) :
  alter f (length h) (h ++ [o]) = h ++ [f o].
Proof.
  rewrite <- (Nat.add_0_r (length h)). by rewrite alter_app_r.
Qed.

Lemma heap_obj_older (h : heap) (o o' : obj) :
  heap_obj (length h) ((h ++ [o]) ++ [o']) = o.
Proof.
  unfold heap_obj. rewrite <- app_assoc. cbn [app]. by rewrite list_lookup_middle.
Qed.

Lemma merged_object_fields (date policyTOC : value) (org answers : obj) k :
  obj_lookup k
    (obj_set (u16 "isHIPAABusinessAssociateText")
       (is_or_is_not (obj_get (u16 "isHIPAABusinessAssociate") org))
       (obj_set (u16 "isHIPAACoveredEntityText")
          (is_or_is_not (obj_get (u16 "isHIPAACoveredEntity") org))
          (obj_set (u16 "policyTOC") policyTOC
             (obj_set (u16 "date") date
                (copy_props answers (copy_props org []))))))
  = context_field date policyTOC org answers k.
Proof.
  unfold context_field.
  destruct (jsstring_eqb k (u16 "isHIPAABusinessAssociateText")) eqn:E4.
  { apply jsstring_eqb_eq in E4 as ->. apply obj_lookup_set_eq. }
  rewrite obj_lookup_set_ne by (intros ->; by rewrite jsstring_eqb_refl in E4).
  destruct (jsstring_eqb k (u16 "isHIPAACoveredEntityText")) eqn:E3.
  { apply jsstring_eqb_eq in E3 as ->. apply obj_lookup_set_eq. }
  rewrite obj_lookup_set_ne by (intros ->; by rewrite jsstring_eqb_refl in E3).
  destruct (jsstring_eqb k (u16 "policyTOC")) eqn:E2.
  { apply jsstring_eqb_eq in E2 as ->. apply obj_lookup_set_eq. }
  rewrite obj_lookup_set_ne by (intros ->; by rewrite jsstring_eqb_refl in E2).
  destruct (jsstring_eqb k (u16 "date")) eqn:E1.
  { apply jsstring_eqb_eq in E1 as ->. apply obj_lookup_set_eq. }
  rewrite obj_lookup_set_ne by (intros ->; by rewrite jsstring_eqb_refl in E1).
  rewrite !obj_lookup_copy_props. simpl.
  by destruct (obj_lookup k org).
Qed.

Lemma report_object_fields
    (gapList gapSummary hipaaControlsMapping riskList : value) (merged : obj) k :
  obj_lookup k
    (copy_props
       [ (u16 "gapList", gapList);
         (u16 "gapSummary", gapSummary);
         (u16 "hipaaControlsMapping", hipaaControlsMapping);
         (u16 "riskList", riskList) ] merged)
  = report_field gapList gapSummary hipaaControlsMapping riskList merged k.
Proof.
  rewrite obj_lookup_copy_props. unfold report_field. cbn [obj_lookup].
  destruct (jsstring_eqb k (u16 "riskList")) eqn:E4.
  { apply jsstring_eqb_eq in E4 as ->. by vm_compute. }
  destruct (jsstring_eqb k (u16 "hipaaControlsMapping")) eqn:E3.
  { apply jsstring_eqb_eq in E3 as ->. by vm_compute. }
  destruct (jsstring_eqb k (u16 "gapSummary")) eqn:E2.
  { apply jsstring_eqb_eq in E2 as ->. by vm_compute. }
  by destruct (jsstring_eqb k (u16 "gapList")).
Qed.

Section DriverProperties.

Context (Entity AnnotatedRef : Type).
Context (validateOrgValues : obj -> bool).
Context (safeInquirerPrompt : option jsstring -> outcome obj).
Context (generatePolicyTOC : PolicyBuilderConfig -> heap -> value).
Context (queryForEntityList :
  jsstring -> jsstring -> option jsstring -> jsstring -> outcome (list Entity)).
Context (generateRiskList : list Entity -> value).
Context (calculateCPGaps :
  jsstring -> PolicyBuilderConfig -> PolicyBuilderPaths -> heap ->
  outcome (list Gap * list AnnotatedRef)).
Context (generateGapSummary :
  list Gap -> PolicyBuilderConfig -> jsstring -> heap -> value).
Context (generateGapList : list Gap -> value).
Context (generateStandardControlsMapping :
  list AnnotatedRef -> PolicyBuilderConfig -> heap -> value).
Context (generateReport : obj -> jsstring -> PolicyBuilderPaths -> outcome unit).
Context (loadConfig : jsstring -> jsstring + obj).
Context (resolveTemplates : Env -> ProgramInput -> jsstring).
Context (toLowerCase : jsstring -> jsstring).

Local Abbreviation gatherInputs_ :=
  (gatherInputs validateOrgValues safeInquirerPrompt generatePolicyTOC).
Local Abbreviation run_ :=
  (run Entity AnnotatedRef validateOrgValues safeInquirerPrompt
       generatePolicyTOC queryForEntityList generateRiskList calculateCPGaps
       generateGapSummary generateGapList generateStandardControlsMapping
       generateReport loadConfig resolveTemplates toLowerCase).

(** X13.  When the organisation's values do not validate, [gatherInputs]
    ends with the fatal usage error at once: the interview is not
    held and no object is created or changed. *)
Theorem invalid_organisation_stops_interview env program config (w : world) :
  validateOrgValues (heap_obj (organization config) (objects w)) = false ->
  gatherInputs_ env program config w
  = (Fatal
       (u16 "Please update your policy config file and re-run the policy builder before continuing with the assessment.")
       EUSAGEERROR, w).
Proof.
  intros H. destruct w as [h t], config as [l]. unfold gatherInputs.
  run_monad. cbn [objects organization] in H. by rewrite H.
Qed.

(** X14.  When the interview fails, [gatherInputs] fails the same way:
    the answers are not normalised, no context is built and the heap is
    as before. *)
Theorem failed_interview_builds_no_context env program config (w : world) :
  validateOrgValues (heap_obj (organization config) (objects w)) = true ->
  returned (safeInquirerPrompt (standard program)) = false ->
  failed_like (safeInquirerPrompt (standard program))
              (gatherInputs_ env program config w).1 /\
  (gatherInputs_ env program config w).2
  = {| objects := objects w; trace := trace w ++ [EvPrompt (standard program)] |}.
Proof.
  intros Hv Hp. destruct w as [h t], config as [l]. unfold gatherInputs.
  run_monad. cbn [objects organization] in Hv. rewrite Hv. cbn [negb].
  by destruct (safeInquirerPrompt (standard program)).
Qed.

(** X15.  The merged context of a successful interview, property by
    property: the two [...Text] fields, [policyTOC] and [date] are the
    derived values whatever the organisation and the answers hold under
    these names; any other name reads the normalised answer when the
    interview has one and the organisation's value otherwise. *)
Theorem merged_context_fields env program config (h : heap) t (org raw : obj) :
  h !! organization config = Some org ->
  validateOrgValues org = true ->
  safeInquirerPrompt (standard program) = Returned raw ->
  exists ctx,
    gatherInputs_ env program config {| objects := h; trace := t |}
    = (Returned (S (length h)),
       {| objects := (h ++ [suppress_obj (invert_obj raw)]) ++ [ctx];
          trace := t ++ [EvPrompt (standard program)] |}) /\
    forall k,
      obj_lookup k ctx
      = context_field (VDate (now env))
          (generatePolicyTOC config (h ++ [suppress_obj (invert_obj raw)]))
          org (suppress_obj (invert_obj raw)) k.
Proof.
  destruct config as [l]. cbn [organization].
  intros Horg Hvalid Hprompt. unfold gatherInputs.
  rewrite Hprompt. run_monad.
  rewrite (heap_obj_lookup _ _ _ Horg), Hvalid. cbn [negb]. run_monad.
  rewrite normalize_answers_fresh.
  eexists. split.
  - rewrite length_app, Nat.add_1_r. reflexivity.
  - intros k. unfold heap_read.
    assert (heap_obj l (h ++ [suppress_obj (invert_obj raw)]) = org) as ->.
    { unfold heap_obj. rewrite lookup_app_l by (by eapply lookup_lt_Some).
      by rewrite Horg. }
    rewrite heap_obj_alloc. apply merged_object_fields.
Qed.

(** X16.  When risks are requested with both credentials and the
    registry fails, the run fails the same way right after the query:
    the interview is not held and nothing is rendered. *)
Theorem registry_failure_stops_run env program (w : world) (org : obj) :
  missing (standard program) = false ->
  missing (config program) = false ->
  loadConfig (default [] (config program)) = inr org ->
  missing (includeRisks program) = false ->
  missing (account program) = false ->
  missing (apiToken program) = false ->
  returned (queryForEntityList (default [] (account program))
              (default [] (apiToken program)) (J1_TARGET_ENV env)
              (u16 "find Risk with _beginOn > date.now - 1year")) = false ->
  failed_like (queryForEntityList (default [] (account program))
                 (default [] (apiToken program)) (J1_TARGET_ENV env)
                 (u16 "find Risk with _beginOn > date.now - 1year"))
              (run_ env program w).1 /\
  (run_ env program w).2
  = {| objects := objects w ++ [org]; trace := trace w ++ risk_query program |}.
Proof.
  intros Hstd Hcfg Hload Hincl Hacc Htok Hq.
  destruct w as [h t]. unfold run, getRisksFromRegistry, risk_query.
  rewrite Hstd, Hcfg, Hload, Hincl, Hacc, Htok. cbn [orb negb]. run_monad.
  by destruct (queryForEntityList _ _ _ _).
Qed.


(** X17.  The context of the report of a successful run: the merged
    context of the interview, updated in place with [gapList],
    [gapSummary], [hipaaControlsMapping] and [riskList].  The gaps
    listed and summarised are the input gaps of the merged context
    followed by the gaps of the controls and procedures; the registry,
    when asked, is queried before the interview, and the report comes
    last. *)
Theorem report_context_fields env program (w : world) (org raw : obj)
    (riskList : value) :
  missing (standard program) = false ->
  missing (config program) = false ->
  loadConfig (default [] (config program)) = inr org ->
  risk_stage_gives queryForEntityList generateRiskList env program riskList ->
  validateOrgValues org = true ->
  safeInquirerPrompt (standard program) = Returned raw ->
  (forall s c p h, returned (calculateCPGaps s c p h) = true) ->
  (forall ctx s p, returned (generateReport ctx s p) = true) ->
  let cfg := {| organization := length (objects w) |} in
  let s := toLowerCase (default [] (standard program)) in
  let paths :=
    {| templates_path := resolveTemplates env program;
       output_path := output program;
       partials_path := u16 "partials" |} in
  let answers := suppress_obj (invert_obj raw) in
  exists merged cpGaps annotatedRefs ctx,
    let h := ((objects w ++ [org]) ++ [answers]) ++ [merged] in
    let gaps := combine_gaps (calculateInputGaps merged) cpGaps in
    calculateCPGaps s cfg paths h = Returned (cpGaps, annotatedRefs) /\
    run_ env program w
    = (Returned tt,
       {| objects := ((objects w ++ [org]) ++ [answers]) ++ [ctx];
          trace := trace w ++ risk_query program ++
                   [ EvPrompt (standard program); EvRenderControls s;
                     EvReport ctx s ] |}) /\
    (forall k,
       obj_lookup k merged
       = context_field (VDate (now env))
           (generatePolicyTOC cfg ((objects w ++ [org]) ++ [answers]))
           org answers k) /\
    (forall k,
       obj_lookup k ctx
       = report_field (generateGapList gaps)
           (generateGapSummary gaps cfg s h)
           (generateStandardControlsMapping annotatedRefs cfg h)
           riskList merged k).
Proof.
  intros Hstd Hcfg Hload Hrisk Hvalid Hprompt Hcp Hrep cfg s paths answers.
  destruct w as [h t]. cbn [objects trace] in *.
  unfold run, gatherInputs, getRisksFromRegistry, risk_query.
  rewrite Hstd, Hcfg, Hload, Hprompt.
  destruct Hrisk as [[Hincl ->]|(Hincl & Hacc & Htok & es & Hq & ->)];
    rewrite Hincl, ?Hacc, ?Htok, ?Hq; cbn [orb negb]; run_monad;
    rewrite heap_obj_alloc, Hvalid; cbn [negb]; run_monad;
    rewrite normalize_answers_fresh; unfold heap_read;
    rewrite !heap_obj_alloc, !heap_obj_older;
    (match goal with
     | |- context [calculateCPGaps ?s' ?c ?p ?hh] =>
         pose proof (Hcp s' c p hh) as Hcp';
         destruct (calculateCPGaps s' c p hh) as [[cpGaps ann]| | |] eqn:Ecp;
         try done
     end);
    (match goal with
     | |- context [generateReport ?c ?s' ?p] =>
         pose proof (Hrep c s' p) as Hrep';
         destruct (generateReport c s' p) as [[]| | |]; try done
     end);
    rewrite alter_alloc, ?heap_obj_alloc;
    (match goal with
     | |- context [EvReport ?c _] => eexists _, cpGaps, ann, c
     end);
    cbv zeta;
    (split; [exact Ecp|]);
    (split; [cbn [app]; rewrite <- ?app_assoc; reflexivity|]);
    (split; [intros k; apply merged_object_fields
            |intros k; apply report_object_fields]).
Qed.


(** X18.  When the controls and procedures cannot be assessed, the run
    fails the same way and no report is produced: the last call made
    is the one that failed, and the merged context is as the interview
    left it, none of the report fields having been written. *)
Theorem controls_failure_stops_report env program (w : world) (org raw : obj)
    (riskList : value) :
  missing (standard program) = false ->
  missing (config program) = false ->
  loadConfig (default [] (config program)) = inr org ->
  risk_stage_gives queryForEntityList generateRiskList env program riskList ->
  validateOrgValues org = true ->
  safeInquirerPrompt (standard program) = Returned raw ->
  (forall s c p h, returned (calculateCPGaps s c p h) = false) ->
  let cfg := {| organization := length (objects w) |} in
  let s := toLowerCase (default [] (standard program)) in
  let paths :=
    {| templates_path := resolveTemplates env program;
       output_path := output program;
       partials_path := u16 "partials" |} in
  exists merged,
    let h := ((objects w ++ [org]) ++ [suppress_obj (invert_obj raw)]) ++ [merged] in
    failed_like (calculateCPGaps s cfg paths h) (run_ env program w).1 /\
    (run_ env program w).2
    = {| objects := h;
         trace := trace w ++ risk_query program ++
                  [ EvPrompt (standard program); EvRenderControls s ] |} /\
    forall k,
      obj_lookup k merged
      = context_field (VDate (now env))
          (generatePolicyTOC cfg
             ((objects w ++ [org]) ++ [suppress_obj (invert_obj raw)]))
          org (suppress_obj (invert_obj raw)) k.
Proof.
  intros Hstd Hcfg Hload Hrisk Hvalid Hprompt Hcp cfg s paths.
  subst cfg s paths. destruct w as [h t]. cbn [objects trace] in *.
  unfold run, gatherInputs, getRisksFromRegistry, risk_query.
  rewrite Hstd, Hcfg, Hload, Hprompt.
  destruct Hrisk as [[Hincl ->]|(Hincl & Hacc & Htok & es & Hq & ->)];
    rewrite Hincl, ?Hacc, ?Htok, ?Hq; cbn [orb negb]; run_monad;
    rewrite heap_obj_alloc, Hvalid; cbn [negb]; run_monad;
    rewrite normalize_answers_fresh; unfold heap_read;
    rewrite !heap_obj_alloc, !heap_obj_older;
    (match goal with
     | |- context [calculateCPGaps ?s' ?c ?p (?hh ++ [?m])] =>
         exists m; cbv zeta;
         pose proof (Hcp s' c p (hh ++ [m])) as Hcp';
         destruct (calculateCPGaps s' c p (hh ++ [m])); try done
     end);
    (split; [done|]);
    (split; [cbn [app]; by rewrite <- ?(@app_assoc event)
            |intros k; apply merged_object_fields]).
Qed.

(** X19.  Whatever the collaborators answer, the calls of a run come in
    one order: the help text alone, or the registry query (when risks
    are requested), the interview, the assessment of the controls and
    the report, the run stopping at the first call that fails.  A run
    that returns has made them all, the report once and last. *)
Theorem run_calls_in_order env program (w : world) :
  let s := toLowerCase (default [] (standard program)) in
  exists ctx evs,
    trace (run_ env program w).2 = trace w ++ evs /\
    match (run_ env program w).1 with
    | Returned _ =>
        evs = risk_query program ++
              [ EvPrompt (standard program); EvRenderControls s; EvReport ctx s ]
    | _ =>
        evs = [EvHelp] \/
        evs `prefix_of`
          risk_query program ++
          [ EvPrompt (standard program); EvRenderControls s; EvReport ctx s ]
    end.
Proof.
  intros s. subst s. destruct w as [h t].
  unfold run, gatherInputs, getRisksFromRegistry, risk_query.
  destruct (missing (standard program) || missing (config program));
    [run_monad; run_leaf|].
  destruct (loadConfig _); [run_monad; run_leaf|].
  destruct (missing (includeRisks program)); cbn [negb].
  - run_monad.
    destruct (validateOrgValues _); cbn [negb]; run_monad; [|run_leaf].
    destruct (safeInquirerPrompt _); run_monad; [|run_leaf..].
    destruct (calculateCPGaps _ _ _ _); run_monad; [|run_leaf..].
    destruct (generateReport _ _ _); run_monad; run_leaf.
  - destruct (missing (account program)); [run_monad; run_leaf|].
    destruct (missing (apiToken program)); [run_monad; run_leaf|].
    run_monad.
    destruct (queryForEntityList _ _ _ _); run_monad; [|run_leaf..].
    destruct (validateOrgValues _); cbn [negb]; run_monad; [|run_leaf].
    destruct (safeInquirerPrompt _); run_monad; [|run_leaf..].
    destruct (calculateCPGaps _ _ _ _); run_monad; [|run_leaf..].
    destruct (generateReport _ _ _); run_monad; run_leaf.
Qed.

End DriverProperties.

Lemma invalid_organisation_stops_interview_witness :
  Scenario.gather false (Returned Sample.raw) Sample.env
    (Sample.program None None None) {| organization := 0 |} Scenario.start
  = (Fatal
       (u16 "Please update your policy config file and re-run the policy builder before continuing with the assessment.")
       EUSAGEERROR, Scenario.start).
Proof.
  exact (invalid_organisation_stops_interview
           (fun _ => false) (fun _ => Returned Sample.raw)
           (fun _ _ => VStr (u16 "- policies"))
           Sample.env (Sample.program None None None)
           {| organization := 0 |} Scenario.start eq_refl).
Defined.

Lemma failed_interview_builds_no_context_witness :
  failed_like (Rejected (u16 "prompt closed") : outcome obj)
    (Scenario.gather true (Rejected (u16 "prompt closed")) Sample.env
       (Sample.program None None None) {| organization := 0 |} Scenario.start).1 /\
  (Scenario.gather true (Rejected (u16 "prompt closed")) Sample.env
     (Sample.program None None None) {| organization := 0 |} Scenario.start).2
  = {| objects := [Sample.org]; trace := [EvPrompt (Some (u16 "HIPAA"))] |}.
Proof.
  exact (failed_interview_builds_no_context
           (fun _ => true) (fun _ => Rejected (u16 "prompt closed"))
           (fun _ _ => VStr (u16 "- policies"))
           Sample.env (Sample.program None None None)
           {| organization := 0 |} Scenario.start eq_refl eq_refl).
Defined.

Lemma merged_context_fields_witness :
  exists ctx,
    Scenario.gather true (Returned Sample.raw) Sample.env
      (Sample.program None None None) {| organization := 0 |}
      {| objects := [Sample.org]; trace := [] |}
    = (Returned 2%nat,
       {| objects := ([Sample.org] ++ [suppress_obj (invert_obj Sample.raw)]) ++ [ctx];
          trace := [] ++ [EvPrompt (Some (u16 "HIPAA"))] |}) /\
    forall k,
      obj_lookup k ctx
      = context_field (VDate (now Sample.env)) (VStr (u16 "- policies"))
          Sample.org (suppress_obj (invert_obj Sample.raw)) k.
Proof.
  exact (merged_context_fields
           (fun _ => true) (fun _ => Returned Sample.raw)
           (fun _ _ => VStr (u16 "- policies"))
           Sample.env (Sample.program None None None)
           {| organization := 0 |} [Sample.org] [] Sample.org Sample.raw
           eq_refl eq_refl eq_refl).
Defined.

Lemma registry_failure_stops_run_witness :
  failed_like (Rejected (u16 "401") : outcome (list unit))
    (Scenario.run true (Returned Sample.raw) (Rejected (u16 "401"))
       Scenario.controls (Returned tt) (inr Sample.org) Sample.env
       (Sample.program (Some (u16 "true")) (Some (u16 "acme")) (Some (u16 "token")))
       Sample.start).1 /\
  (Scenario.run true (Returned Sample.raw) (Rejected (u16 "401"))
     Scenario.controls (Returned tt) (inr Sample.org) Sample.env
     (Sample.program (Some (u16 "true")) (Some (u16 "acme")) (Some (u16 "token")))
     Sample.start).2
  = {| objects := [Sample.org];
       trace := [ EvQueryRisks (u16 "acme") (u16 "token")
                    (u16 "find Risk with _beginOn > date.now - 1year") ] |}.
Proof.
  exact (registry_failure_stops_run unit unit
           (fun _ => true) (fun _ => Returned Sample.raw)
           (fun _ _ => VStr (u16 "- policies"))
           (fun _ _ _ _ => Rejected (u16 "401"))
           (fun riskEntities => VStr (u16 "risks listed"))
           (fun _ _ _ _ => Scenario.controls)
           (fun gaps _ _ _ => VStr (u16 "gaps found"))
           (fun _ => VStr (u16 "1. gap"))
           (fun _ _ _ => VStr (u16 "| clause | status |"))
           (fun _ _ _ => Returned tt)
           (fun _ => inr Sample.org)
           (fun _ _ => u16 "templates")
           Sample.lower_ascii
           Sample.env
           (Sample.program (Some (u16 "true")) (Some (u16 "acme")) (Some (u16 "token")))
           Sample.start Sample.org
           eq_refl eq_refl eq_refl eq_refl eq_refl eq_refl eq_refl).
Defined.

Lemma report_context_fields_witness :
  exists ctx,
    (Scenario.run true (Returned Sample.raw) (Returned [tt])
       Scenario.controls (Returned tt) (inr Sample.org) Sample.env
       (Sample.program (Some (u16 "true")) (Some (u16 "acme")) (Some (u16 "token")))
       Sample.start).1 = Returned tt /\
    obj_lookup (u16 "riskList") ctx = Some (VStr (u16 "risks listed")) /\
    obj_lookup (u16 "date") ctx = Some (VDate (now Sample.env)).
Proof.
  destruct (report_context_fields unit unit
           (fun _ => true) (fun _ => Returned Sample.raw)
           (fun _ _ => VStr (u16 "- policies"))
           (fun _ _ _ _ => Returned [tt])
           (fun riskEntities => VStr (u16 "risks listed"))
           (fun _ _ _ _ => Scenario.controls)
           (fun gaps _ _ _ => VStr (u16 "gaps found"))
           (fun _ => VStr (u16 "1. gap"))
           (fun _ _ _ => VStr (u16 "| clause | status |"))
           (fun _ _ _ => Returned tt)
           (fun _ => inr Sample.org)
           (fun _ _ => u16 "templates")
           Sample.lower_ascii
           Sample.env
           (Sample.program (Some (u16 "true")) (Some (u16 "acme")) (Some (u16 "token")))
           Sample.start Sample.org Sample.raw (VStr (u16 "risks listed")))
    as (merged & cpGaps & ann & ctx & _ & Hrun & Hmerged & Hctx).
  - reflexivity.
  - reflexivity.
  - reflexivity.
  - right. split; [reflexivity|]. split; [reflexivity|]. split; [reflexivity|].
    exists [tt]. split; reflexivity.
  - reflexivity.
  - reflexivity.
  - intros. reflexivity.
  - intros. reflexivity.
  - exists ctx. split; [|split].
    + unfold Scenario.run. by rewrite Hrun.
    + by rewrite Hctx.
    + rewrite Hctx.
      change (obj_lookup (u16 "date") merged = Some (VDate (now Sample.env))).
      by rewrite Hmerged.
Defined.

Lemma controls_failure_stops_report_witness :
  exists merged,
    failed_like (Rejected (u16 "missing template") : outcome (list Gap * list unit))
      (Scenario.run true (Returned Sample.raw) (Returned [tt])
         (Rejected (u16 "missing template")) (Returned tt) (inr Sample.org)
         Sample.env (Sample.program None None None) Sample.start).1 /\
    (Scenario.run true (Returned Sample.raw) (Returned [tt])
       (Rejected (u16 "missing template")) (Returned tt) (inr Sample.org)
       Sample.env (Sample.program None None None) Sample.start).2
    = {| objects := (([] ++ [Sample.org]) ++ [suppress_obj (invert_obj Sample.raw)])
                    ++ [merged];
         trace := [] ++ [] ++
                  [ EvPrompt (Some (u16 "HIPAA")); EvRenderControls (u16 "hipaa") ] |} /\
    forall k,
      obj_lookup k merged
      = context_field (VDate (now Sample.env)) (VStr (u16 "- policies"))
          Sample.org (suppress_obj (invert_obj Sample.raw)) k.
Proof.
  refine (controls_failure_stops_report unit unit
            (fun _ => true) (fun _ => Returned Sample.raw)
            (fun _ _ => VStr (u16 "- policies"))
            (fun _ _ _ _ => Returned [tt])
            (fun riskEntities => VStr (u16 "risks listed"))
            (fun _ _ _ _ => Rejected (u16 "missing template"))
            (fun gaps _ _ _ => VStr (u16 "gaps found"))
            (fun _ => VStr (u16 "1. gap"))
            (fun _ _ _ => VStr (u16 "| clause | status |"))
            (fun _ _ _ => Returned tt)
            (fun _ => inr Sample.org)
            (fun _ _ => u16 "templates")
            Sample.lower_ascii
            Sample.env (Sample.program None None None)
            Sample.start Sample.org Sample.raw
            (VStr (u16 "Detailed risk items omitted."))
            _ _ _ _ _ _ _).
  - reflexivity.
  - reflexivity.
  - reflexivity.
  - left. split; reflexivity.
  - reflexivity.
  - reflexivity.
  - intros. reflexivity.
Defined.

(** ** The claims on the normalisation and on the aggregation, in the
    program *)

Lemma heap_obj_newest (h : heap) (o o' : obj) :
  heap_obj (S (length h)) ((h ++ [o]) ++ [o']) = o'.
Proof.
  replace (S (length h)) with (length (h ++ [o])); [apply heap_obj_alloc|].
  rewrite length_app. simpl. lia.
Qed.

Lemma alter_newest f (h : heap) (o o' : obj) :
  alter f (S (length h)) ((h ++ [o]) ++ [o']) = (h ++ [o]) ++ [f o'].
Proof.
  replace (S (length h)) with (length (h ++ [o])); [apply alter_alloc|].
  rewrite length_app. simpl. lia.
Qed.

Section ClaimsInTheProgram.

Context (Entity AnnotatedRef : Type).
Context (validateOrgValues : obj -> bool).
Context (safeInquirerPrompt : option jsstring -> outcome obj).
Context (generatePolicyTOC : PolicyBuilderConfig -> heap -> value).
Context (queryForEntityList :
  jsstring -> jsstring -> option jsstring -> jsstring -> outcome (list Entity)).
Context (generateRiskList : list Entity -> value).
Context (calculateCPGaps :
  jsstring -> PolicyBuilderConfig -> PolicyBuilderPaths -> heap ->
  outcome (list Gap * list AnnotatedRef)).
Context (generateGapSummary :
  list Gap -> PolicyBuilderConfig -> jsstring -> heap -> value).
Context (generateGapList : list Gap -> value).
Context (generateStandardControlsMapping :
  list AnnotatedRef -> PolicyBuilderConfig -> heap -> value).
Context (generateReport : obj -> jsstring -> PolicyBuilderPaths -> outcome unit).
Context (loadConfig : jsstring -> jsstring + obj).
Context (resolveTemplates : Env -> ProgramInput -> jsstring).
Context (toLowerCase : jsstring -> jsstring).

Local Abbreviation gatherInputs_ :=
  (gatherInputs validateOrgValues safeInquirerPrompt generatePolicyTOC).
Local Abbreviation run_ :=
  (run Entity AnnotatedRef validateOrgValues safeInquirerPrompt
       generatePolicyTOC queryForEntityList generateRiskList calculateCPGaps
       generateGapSummary generateGapList generateStandardControlsMapping
       generateReport loadConfig resolveTemplates toLowerCase).

(** A successful interview: the prompt's object, normalised in place,
    and the merged context are the two objects [gatherInputs] adds. *)
Lemma gatherInputs_objects env program config (h : heap) (org raw : obj) :
  h !! organization config = Some org ->
  validateOrgValues org = true ->
  safeInquirerPrompt (standard program) = Returned raw ->
  exists ctx,
    (forall t,
       gatherInputs_ env program config {| objects := h; trace := t |}
       = (Returned (S (length h)),
          {| objects := (h ++ [suppress_obj (invert_obj raw)]) ++ [ctx];
             trace := t ++ [EvPrompt (standard program)] |})) /\
    forall k,
      obj_lookup k ctx
      = context_field (VDate (now env))
          (generatePolicyTOC config (h ++ [suppress_obj (invert_obj raw)]))
          org (suppress_obj (invert_obj raw)) k.
Proof.
  destruct config as [l]. cbn [organization].
  intros Horg Hvalid Hprompt. unfold gatherInputs.
  rewrite Hprompt. run_monad.
  rewrite (heap_obj_lookup _ _ _ Horg), Hvalid. cbn [negb]. run_monad.
  rewrite normalize_answers_fresh.
  eexists. split.
  - intros t. rewrite length_app, Nat.add_1_r. reflexivity.
  - intros k. unfold heap_read.
    assert (heap_obj l (h ++ [suppress_obj (invert_obj raw)]) = org) as ->.
    { unfold heap_obj. rewrite lookup_app_l by (by eapply lookup_lt_Some).
      by rewrite Horg. }
    rewrite heap_obj_alloc. apply merged_object_fields.
Qed.

(** C5.  In a run of [gatherInputs] whose interview succeeds, every
    question of the raw answers whose name the pattern accepts is
    inverted exactly once: the prompt's object, rewritten in place, and
    the merged context returned both hold the negation of the raw
    answer under that name, so a raw [true] reads [false] and a raw
    [false] reads [true]. *)
Theorem interview_inverts_gap_flags_once env program config (h : heap) t
    (org raw : obj) (questionName : jsstring) (v : value) :
  h !! organization config = Some org ->
  validateOrgValues org = true ->
  safeInquirerPrompt (standard program) = Returned raw ->
  NoDup (Object_keys raw) ->
  obj_lookup questionName raw = Some v ->
  test_has_Gap questionName = true ->
  exists answers ctx,
    gatherInputs_ env program config {| objects := h; trace := t |}
    = (Returned (S (length h)),
       {| objects := (h ++ [answers]) ++ [ctx];
          trace := t ++ [EvPrompt (standard program)] |}) /\
    obj_lookup questionName answers = Some (js_not v) /\
    obj_lookup questionName ctx = Some (js_not v) /\
    js_not (VBool true) = VBool false /\
    js_not (VBool false) = VBool true.
Proof.
  intros Horg Hvalid Hprompt Hnd Hq Ht.
  destruct (gatherInputs_objects env program config h org raw Horg Hvalid Hprompt)
    as (ctx & Hgather & Hctx).
  assert (obj_lookup questionName (suppress_obj (invert_obj raw)) = Some (js_not v))
    as Hanswer.
  { rewrite suppress_obj_other; [by apply invert_obj_flag|].
    pose proof PEN_TEST_QUESTIONS_not_flags as Hpen.
    rewrite forallb_forall in Hpen. intros Hin%Hpen. by rewrite Ht in Hin. }
  eexists _, ctx. split; [exact (Hgather t)|]. split; [exact Hanswer|].
  split; [|done].
  rewrite Hctx. unfold context_field.
  destruct (jsstring_eqb questionName (u16 "isHIPAABusinessAssociateText")) eqn:E4.
  { apply jsstring_eqb_eq in E4. subst. by vm_compute in Ht. }
  destruct (jsstring_eqb questionName (u16 "isHIPAACoveredEntityText")) eqn:E3.
  { apply jsstring_eqb_eq in E3. subst. by vm_compute in Ht. }
  destruct (jsstring_eqb questionName (u16 "policyTOC")) eqn:E2.
  { apply jsstring_eqb_eq in E2. subst. by vm_compute in Ht. }
  destruct (jsstring_eqb questionName (u16 "date")) eqn:E1.
  { apply jsstring_eqb_eq in E1. subst. by vm_compute in Ht. }
  by rewrite Hanswer.
Qed.

(** C6.  In a run of [gatherInputs] whose interview succeeds and in
    which [hasPenTestGap] is true once the gap flags are inverted,
    [lastPenTestDate], [lastPenTestProvider], [penTestFrequency] and
    [nextPenTestDate] all read [*TBD*], in the prompt's object and in
    the merged context returned, whatever was answered. *)
Theorem interview_suppresses_pen_test_answers env program config (h : heap) t
    (org raw : obj) :
  h !! organization config = Some org ->
  validateOrgValues org = true ->
  safeInquirerPrompt (standard program) = Returned raw ->
  truthy (heap_read (length h) (u16 "hasPenTestGap")
            (invert_gap_answers (length h) (h ++ [raw]))) = true ->
  exists answers ctx,
    gatherInputs_ env program config {| objects := h; trace := t |}
    = (Returned (S (length h)),
       {| objects := (h ++ [answers]) ++ [ctx];
          trace := t ++ [EvPrompt (standard program)] |}) /\
    obj_lookup (u16 "lastPenTestDate") answers = Some (VStr (u16 "*TBD*")) /\
    obj_lookup (u16 "lastPenTestProvider") answers = Some (VStr (u16 "*TBD*")) /\
    obj_lookup (u16 "penTestFrequency") answers = Some (VStr (u16 "*TBD*")) /\
    obj_lookup (u16 "nextPenTestDate") answers = Some (VStr (u16 "*TBD*")) /\
    obj_lookup (u16 "lastPenTestDate") ctx = Some (VStr (u16 "*TBD*")) /\
    obj_lookup (u16 "lastPenTestProvider") ctx = Some (VStr (u16 "*TBD*")) /\
    obj_lookup (u16 "penTestFrequency") ctx = Some (VStr (u16 "*TBD*")) /\
    obj_lookup (u16 "nextPenTestDate") ctx = Some (VStr (u16 "*TBD*")).
Proof.
  intros Horg Hvalid Hprompt Hgap.
  destruct (gatherInputs_objects env program config h org raw Horg Hvalid Hprompt)
    as (ctx & Hgather & Hctx).
  unfold heap_read in Hgap. rewrite heap_obj_invert, heap_obj_alloc in Hgap.
  assert (obj_lookup (u16 "lastPenTestDate") (suppress_obj (invert_obj raw))
          = Some (VStr (u16 "*TBD*")) /\
          obj_lookup (u16 "lastPenTestProvider") (suppress_obj (invert_obj raw))
          = Some (VStr (u16 "*TBD*")) /\
          obj_lookup (u16 "penTestFrequency") (suppress_obj (invert_obj raw))
          = Some (VStr (u16 "*TBD*")) /\
          obj_lookup (u16 "nextPenTestDate") (suppress_obj (invert_obj raw))
          = Some (VStr (u16 "*TBD*"))) as (H1 & H2 & H3 & H4).
  { unfold suppress_obj. rewrite Hgap. cbn [foldl PEN_TEST_QUESTIONS].
    repeat split;
      rewrite ?obj_lookup_set_ne by (by vm_compute); apply obj_lookup_set_eq. }
  eexists _, ctx. split; [exact (Hgather t)|].
  rewrite !Hctx.
  change (context_field ?d ?p ?o ?a (u16 "lastPenTestDate"))
    with (match obj_lookup (u16 "lastPenTestDate") a with
          | Some v => Some v | None => obj_lookup (u16 "lastPenTestDate") o end).
  change (context_field ?d ?p ?o ?a (u16 "lastPenTestProvider"))
    with (match obj_lookup (u16 "lastPenTestProvider") a with
          | Some v => Some v | None => obj_lookup (u16 "lastPenTestProvider") o end).
  change (context_field ?d ?p ?o ?a (u16 "penTestFrequency"))
    with (match obj_lookup (u16 "penTestFrequency") a with
          | Some v => Some v | None => obj_lookup (u16 "penTestFrequency") o end).
  change (context_field ?d ?p ?o ?a (u16 "nextPenTestDate"))
    with (match obj_lookup (u16 "nextPenTestDate") a with
          | Some v => Some v | None => obj_lookup (u16 "nextPenTestDate") o end).
  by rewrite H1, H2, H3, H4.
Qed.


(** C7.  In a run that succeeds, the gaps given to [generateGapList]
    and to [generateGapSummary], and so the [gapList] and the
    [gapSummary] of the report, are the input gaps of the merged
    context returned by [gatherInputs] followed by the gaps of the
    controls and procedures returned by [calculateCPGaps], each list
    in its own order; one gap of each gives the two in that order. *)
Theorem run_lists_input_gaps_first env program (w : world) (org raw : obj)
    (riskList : value) (gapA gapB : Gap) :
  missing (standard program) = false ->
  missing (config program) = false ->
  loadConfig (default [] (config program)) = inr org ->
  risk_stage_gives queryForEntityList generateRiskList env program riskList ->
  validateOrgValues org = true ->
  safeInquirerPrompt (standard program) = Returned raw ->
  (forall s c p h, returned (calculateCPGaps s c p h) = true) ->
  (forall ctx s p, returned (generateReport ctx s p) = true) ->
  let cfg := {| organization := length (objects w) |} in
  let s := toLowerCase (default [] (standard program)) in
  let paths :=
    {| templates_path := resolveTemplates env program;
       output_path := output program;
       partials_path := u16 "partials" |} in
  let answers := suppress_obj (invert_obj raw) in
  exists merged cpGaps annotatedRefs ctx,
    let h := ((objects w ++ [org]) ++ [answers]) ++ [merged] in
    let inputGaps := calculateInputGaps merged in
    (forall t,
       gatherInputs_ env program cfg {| objects := objects w ++ [org]; trace := t |}
       = (Returned (S (length (objects w ++ [org]))),
          {| objects := h; trace := t ++ [EvPrompt (standard program)] |})) /\
    calculateCPGaps s cfg paths h = Returned (cpGaps, annotatedRefs) /\
    run_ env program w
    = (Returned tt,
       {| objects := ((objects w ++ [org]) ++ [answers]) ++ [ctx];
          trace := trace w ++ risk_query program ++
                   [ EvPrompt (standard program); EvRenderControls s;
                     EvReport ctx s ] |}) /\
    obj_lookup (u16 "gapList") ctx
    = Some (generateGapList (inputGaps ++ cpGaps)) /\
    obj_lookup (u16 "gapSummary") ctx
    = Some (generateGapSummary (inputGaps ++ cpGaps) cfg s h) /\
    take (length inputGaps) (combine_gaps inputGaps cpGaps) = inputGaps /\
    drop (length inputGaps) (combine_gaps inputGaps cpGaps) = cpGaps /\
    combine_gaps [gapA] [gapB] = [gapA; gapB].
Proof.
  intros Hstd Hcfg Hload Hrisk Hvalid Hprompt Hcp Hrep cfg s paths answers.
  subst s paths answers. destruct w as [h t]. cbn [objects trace] in *.
  destruct (gatherInputs_objects env program cfg (h ++ [org]) org raw)
    as (merged & Hgather & _); [by apply list_lookup_middle|done|done|].
  subst cfg.
  unfold run, getRisksFromRegistry, risk_query.
  rewrite Hstd, Hcfg, Hload.
  destruct Hrisk as [[Hincl ->]|(Hincl & Hacc & Htok & es & Hq & ->)];
    rewrite Hincl, ?Hacc, ?Htok, ?Hq; cbn [orb negb]; run_monad;
    rewrite Hgather; run_monad;
    rewrite !heap_obj_newest;
    (match goal with
     | |- context [calculateCPGaps ?s' ?c ?p ?hh] =>
         pose proof (Hcp s' c p hh) as Hcp';
         destruct (calculateCPGaps s' c p hh) as [[cpGaps ann]| | |] eqn:Ecp;
         try done
     end);
    (match goal with
     | |- context [generateReport ?c ?s' ?p] =>
         pose proof (Hrep c s' p) as Hrep';
         destruct (generateReport c s' p) as [[]| | |]; try done
     end);
    rewrite alter_newest, ?heap_obj_newest;
    (match goal with
     | |- context [EvReport ?c _] => exists merged, cpGaps, ann, c
     end);
    cbv zeta;
    (split; [intros t'; by rewrite Hgather|]);
    (split; [exact Ecp|]);
    (split; [cbn [app]; rewrite <- ?(@app_assoc event); reflexivity|]);
    (split; [by rewrite report_object_fields|]);
    (split; [by rewrite report_object_fields|]);
    unfold combine_gaps;
    (split; [by rewrite take_app_length|]);
    (split; [by rewrite drop_app_length|]); reflexivity.
Qed.

End ClaimsInTheProgram.

Lemma interview_inverts_gap_flags_once_witness :
  exists answers ctx,
    Scenario.gather true (Returned Sample.raw) Sample.env
      (Sample.program None None None) {| organization := 0 |}
      {| objects := [Sample.org]; trace := [] |}
    = (Returned 2%nat,
       {| objects := ([Sample.org] ++ [answers]) ++ [ctx];
          trace := [] ++ [EvPrompt (Some (u16 "HIPAA"))] |}) /\
    obj_lookup (u16 "hasEncryptionGap") answers = Some (js_not (VBool true)) /\
    obj_lookup (u16 "hasEncryptionGap") ctx = Some (js_not (VBool true)) /\
    js_not (VBool true) = VBool false /\
    js_not (VBool false) = VBool true.
Proof.
  refine (interview_inverts_gap_flags_once
            (fun _ => true) (fun _ => Returned Sample.raw)
            (fun _ _ => VStr (u16 "- policies"))
            Sample.env (Sample.program None None None)
            {| organization := 0 |} [Sample.org] [] Sample.org Sample.raw
            (u16 "hasEncryptionGap") (VBool true) _ _ _ _ _ _).
  - reflexivity.
  - reflexivity.
  - reflexivity.
  - apply (bool_decide_unpack _). vm_compute. exact I.
  - reflexivity.
  - vm_compute. reflexivity.
Defined.

Lemma interview_suppresses_pen_test_answers_witness :
  exists answers ctx,
    Scenario.gather true (Returned Sample.raw) Sample.env
      (Sample.program None None None) {| organization := 0 |}
      {| objects := [Sample.org]; trace := [] |}
    = (Returned 2%nat,
       {| objects := ([Sample.org] ++ [answers]) ++ [ctx];
          trace := [] ++ [EvPrompt (Some (u16 "HIPAA"))] |}) /\
    obj_lookup (u16 "lastPenTestDate") answers = Some (VStr (u16 "*TBD*")) /\
    obj_lookup (u16 "lastPenTestProvider") answers = Some (VStr (u16 "*TBD*")) /\
    obj_lookup (u16 "penTestFrequency") answers = Some (VStr (u16 "*TBD*")) /\
    obj_lookup (u16 "nextPenTestDate") answers = Some (VStr (u16 "*TBD*")) /\
    obj_lookup (u16 "lastPenTestDate") ctx = Some (VStr (u16 "*TBD*")) /\
    obj_lookup (u16 "lastPenTestProvider") ctx = Some (VStr (u16 "*TBD*")) /\
    obj_lookup (u16 "penTestFrequency") ctx = Some (VStr (u16 "*TBD*")) /\
    obj_lookup (u16 "nextPenTestDate") ctx = Some (VStr (u16 "*TBD*")).
Proof.
  refine (interview_suppresses_pen_test_answers
            (fun _ => true) (fun _ => Returned Sample.raw)
            (fun _ _ => VStr (u16 "- policies"))
            Sample.env (Sample.program None None None)
            {| organization := 0 |} [Sample.org] [] Sample.org Sample.raw
            _ _ _ _).
  - reflexivity.
  - reflexivity.
  - reflexivity.
  - vm_compute. reflexivity.
Defined.

Lemma run_lists_input_gaps_first_witness :
  exists ctx,
    (Scenario.run true (Returned Sample.raw) (Returned [tt])
       Scenario.controls (Returned tt) (inr Sample.org) Sample.env
       (Sample.program None None None) Sample.start).1 = Returned tt /\
    obj_lookup (u16 "gapList") ctx = Some (VStr (u16 "1. gap")) /\
    obj_lookup (u16 "gapSummary") ctx = Some (VStr (u16 "gaps found")).
Proof.
  destruct (run_lists_input_gaps_first unit unit
           (fun _ => true) (fun _ => Returned Sample.raw)
           (fun _ _ => VStr (u16 "- policies"))
           (fun _ _ _ _ => Returned [tt])
           (fun riskEntities => VStr (u16 "risks listed"))
           (fun _ _ _ _ => Scenario.controls)
           (fun gaps _ _ _ => VStr (u16 "gaps found"))
           (fun _ => VStr (u16 "1. gap"))
           (fun _ _ _ => VStr (u16 "| clause | status |"))
           (fun _ _ _ => Returned tt)
           (fun _ => inr Sample.org)
           (fun _ _ => u16 "templates")
           Sample.lower_ascii
           Sample.env (Sample.program None None None)
           Sample.start Sample.org Sample.raw
           (VStr (u16 "Detailed risk items omitted."))
           (mkGap (u16 "Pen Test") (u16 "(see above)"))
           (mkGap (u16 "164.308(a)(1)") (u16 "Risk analysis")))
    as (merged & cpGaps & ann & ctx & _ & _ & Hrun & Hlist & Hsummary & _).
  - reflexivity.
  - reflexivity.
  - reflexivity.
  - left. split; reflexivity.
  - reflexivity.
  - reflexivity.
  - intros. reflexivity.
  - intros. reflexivity.
  - exists ctx. split; [|split].
    + unfold Scenario.run. by rewrite Hrun.
    + exact Hlist.
    + exact Hsummary.
Defined.
